(** * PingParallel: the probing engine of [main.go]

    A shallow embedding of the retry policy ([pingOnce], [pingWithRetries]),
    of the worker goroutine that [main] spawns per (round, URL), and of the
    collector goroutine with the summary computed at the end of [main].

    Go's [int], [int64] and [time.Duration] are 64-bit two's complement
    integers: they are modelled as [Z] with the wrap-around written out
    ([Int64.wrap]).  Go's [float64] is modelled by [Float64.float64], a
    mantissa and a binary exponent rounded to 53 bits, ties to even.
    Everything the program asks of the outside (the HTTP client, the URL
    parser, the clock, the random source, the context) is answered by a
    [World] of oracles; a [RunState] counts how many answers were
    consumed.

    Two statements of [main.go] have no sound execution.  Line 90,
    [base := float64(100 * (1 << attempt))], is not well typed: in a
    shift whose count is not a constant, the constant [1] takes the type
    the context gives it, here [float64], and a [float64] cannot be
    shifted ([GoExpr], [line_90]); the compiler rejects it.  And
    [pingOnce] drops the error of [http.NewRequestWithContext], so that a
    URL that does not parse sends [client.Do] a nil request, which
    panics.  Both are modelled as they are: a run that reaches line 90
    ends [Rejected], an attempt on such a URL ends [Panicked]. *)

From Stdlib Require Import ZArith List Bool String Ascii Lia Sorted Permutation.
From Stdlib Require PrimFloat FloatOps Uint63.
Import ListNotations.
Local Open Scope Z_scope.

(* ================================================================= *)
(** ** 64-bit signed integers *)

Module Int64.

Definition MaxInt64 : Z := Eval cbv in 2 ^ 63 - 1.
Definition MinInt64 : Z := Eval cbv in - 2 ^ 63.
Definition modulus : Z := Eval cbv in 2 ^ 64.

(** Two's complement reduction into [MinInt64, MaxInt64]. *)
Definition wrap (x : Z) : Z := (x - MinInt64) mod modulus + MinInt64.

Definition add (x y : Z) : Z := wrap (x + y).
Definition mul (x y : Z) : Z := wrap (x * y).

(** [x << s]: a negative count panics ([None]); a count of 64 or more
    shifts every bit out. *)
Definition shl (x s : Z) : option Z :=
  if s <? 0 then None
  else if 64 <=? s then Some 0
  else Some (wrap (x * 2 ^ s)).

(** [time.Time.Sub] clamps to the extreme durations instead of wrapping. *)
Definition saturate (x : Z) : Z := Z.max MinInt64 (Z.min MaxInt64 x).

Definition in_range (x : Z) : Prop := MinInt64 <= x <= MaxInt64.

End Int64.

(* ================================================================= *)
(** ** binary64 floating point

    A [float64] stands for [mant * 2 ^ expo].  Every operation computes
    its exact result and rounds the mantissa to 53 bits, to nearest and
    ties to even, as IEEE 754 does.  The exponent is unbounded: the
    model is exact wherever the IEEE result is finite and normal, which
    covers all the values the backoff computation handles (magnitudes
    below 2^66, multiples of 2^-1074). *)

Module Float64.

Record float64 := mk { mant : Z; expo : Z }.

Definition precision : Z := 53.

(** Number of bits of a non-negative integer. *)
Definition bits (a : Z) : Z := if a =? 0 then 0 else Z.log2 a + 1.

(** [a / 2^k] rounded to the nearest integer, ties to even. *)
Definition round_nearest_even (a k : Z) : Z :=
  let q := a / 2 ^ k in
  let rem := a mod 2 ^ k in
  let half := 2 ^ (k - 1) in
  if rem <? half then q
  else if half <? rem then q + 1
  else if Z.even q then q else q + 1.

Definition normalize (m e : Z) : float64 :=
  let a := Z.abs m in
  if bits a <=? precision then mk m e
  else
    let k := bits a - precision in
    mk (Z.sgn m * round_nearest_even a k) (e + k).

(** [float64(n)] for an integer [n]. *)
Definition of_int (n : Z) : float64 := normalize n 0.

Definition mul (x y : float64) : float64 :=
  normalize (mant x * mant y) (expo x + expo y).

Definition add (x y : float64) : float64 :=
  let e := Z.min (expo x) (expo y) in
  normalize (mant x * 2 ^ (expo x - e) + mant y * 2 ^ (expo y - e)) e.

(** The integer part, rounding toward zero. *)
Definition trunc (x : float64) : Z :=
  if 0 <=? expo x then mant x * 2 ^ expo x
  else Z.quot (mant x) (2 ^ (- expo x)).

(** [int64(x)]: truncation; when the integer part does not fit, Go leaves
    the value to the implementation, here the parameter [indefinite]. *)
Definition to_int64 (indefinite : Z) (x : float64) : Z :=
  let t := trunc x in
  if (Int64.MinInt64 <=? t) && (t <=? Int64.MaxInt64) then t else indefinite.

(** A value of the unit interval [0, 1), as [rand.Float64] returns. *)
Definition unit_interval (r : float64) : Prop :=
  0 <= mant r < 2 ^ precision /\ mant r < 2 ^ (- expo r).

(** The hardware float of a non-negative model value, for cross-checks. *)
Definition to_prim (x : float64) : PrimFloat.float :=
  FloatOps.Z.ldexp (PrimFloat.of_uint63 (Uint63.of_Z (mant x))) (expo x).

End Float64.

Abbreviation float64 := Float64.float64.

(* ================================================================= *)
(** ** Results *)

(** The values of Go's [error] that the engine handles: [ctx.Err()] of a
    cancelled context, and whatever the HTTP client reports. *)
Inductive go_error : Type :=
| context_Canceled
| transport_error (msg : string).

(** [type Result struct]; [Duration] in nanoseconds, [When] an instant in
    nanoseconds. *)
Record Result := mkResult {
  URL : string;
  Status : Z;
  Duration : Z;
  Error : option go_error;
  When : Z
}.

(** [var last Result]: the zero value. *)
Definition zero_Result : Result :=
  {| URL := EmptyString; Status := 0; Duration := 0; Error := None; When := 0 |}.

Definition error_free (r : Result) : bool :=
  match Error r with None => true | Some _ => false end.

(* ================================================================= *)
(** ** The outside world *)

Inductive Method := MethodHead | MethodGet.

Record Response := { StatusCode : Z }.

Record World := {
  (** whether [net/url.Parse] accepts the string, that is whether
      [http.NewRequestWithContext] returns a request for it *)
  url_Parse : string -> bool;
  (** the answer to the n-th [client.Do] *)
  client_Do : nat -> Method -> string -> option Response * option go_error;
  (** the n-th reading of the clock *)
  time_Now : nat -> Z;
  (** the n-th [rand.Float64()] *)
  rand_Float64 : nat -> float64;
  (** whether the context is found cancelled at its n-th observation *)
  ctx_Done : nat -> bool;
  (** what the platform yields for a float that does not fit an int64 *)
  conv_indefinite : Z
}.

(** How much of the world was consumed, and a log of the attempts made
    and of the timers armed. *)
Record RunState := {
  n_http : nat;
  n_clock : nat;
  n_rand : nat;
  n_ctx : nat;
  probes : list Result;
  timers : list Z
}.

Definition run0 : RunState :=
  {| n_http := 0; n_clock := 0; n_rand := 0; n_ctx := 0; probes := []; timers := [] |}.

Definition Eff (A : Type) : Type := RunState -> A * RunState.

Definition ret {A} (a : A) : Eff A := fun s => (a, s).

Definition bind {A B} (c : Eff A) (k : A -> Eff B) : Eff B :=
  fun s => let (a, s') := c s in k a s'.

Notation "x <- c ;; k" := (bind c (fun x => k))
  (at level 61, c at next level, right associativity).
Notation "' p <- c ;; k" := (bind c (fun x => let 'p := x in k))
  (at level 61, p pattern, c at next level, right associativity).

Definition now (w : World) : Eff Z := fun s =>
  (time_Now w (n_clock s),
   {| n_http := n_http s; n_clock := S (n_clock s); n_rand := n_rand s;
      n_ctx := n_ctx s; probes := probes s; timers := timers s |}).

Definition do_request (w : World) (m : Method) (url : string)
  : Eff (option Response * option go_error) := fun s =>
  (client_Do w (n_http s) m url,
   {| n_http := S (n_http s); n_clock := n_clock s; n_rand := n_rand s;
      n_ctx := n_ctx s; probes := probes s; timers := timers s |}).

Definition draw (w : World) : Eff float64 := fun s =>
  (rand_Float64 w (n_rand s),
   {| n_http := n_http s; n_clock := n_clock s; n_rand := S (n_rand s);
      n_ctx := n_ctx s; probes := probes s; timers := timers s |}).

Definition ctx_poll (w : World) : Eff bool := fun s =>
  (ctx_Done w (n_ctx s),
   {| n_http := n_http s; n_clock := n_clock s; n_rand := n_rand s;
      n_ctx := S (n_ctx s); probes := probes s; timers := timers s |}).

Definition log_probe (r : Result) : Eff unit := fun s =>
  (tt,
   {| n_http := n_http s; n_clock := n_clock s; n_rand := n_rand s;
      n_ctx := n_ctx s; probes := probes s ++ [r]; timers := timers s |}).

Definition log_timer (d : Z) : Eff unit := fun s =>
  (tt,
   {| n_http := n_http s; n_clock := n_clock s; n_rand := n_rand s;
      n_ctx := n_ctx s; probes := probes s; timers := timers s ++ [d] |}).

(* ================================================================= *)
(** ** The prober: [pingOnce] *)

(** [req, _ := http.NewRequestWithContext(ctx, http.MethodHead, url, nil)]
    leaves [req] nil when the URL does not parse (the method is a valid
    constant and the context is not nil, so this is the only error), and
    [client.Do(nil)] dereferences it: a run-time panic, [None] here.  A
    URL that parses for HEAD parses for GET. *)
Definition pingOnce (w : World) (url : string) : Eff (option Result) :=
  start <- now w ;;
  if url_Parse w url then
    ' (resp, err) <- do_request w MethodHead url ;;
    ' (resp, err) <- match err with
                     | Some _ => do_request w MethodGet url
                     | None => ret (resp, err)
                     end ;;
    finish <- now w ;;
    let elapsed := Int64.saturate (finish - start) in
    let status := match resp with Some r => StatusCode r | None => 0 end in
    let res := {| URL := url; Status := status; Duration := elapsed;
                  Error := err; When := start |} in
    _ <- log_probe res ;;
    ret (Some res)
  else ret None.

(* ================================================================= *)
(** ** The retry policy: [pingWithRetries] *)

(** [last.Error == nil && (last.Status == 0 || last.Status < 500)] *)
Definition retry_terminal (r : Result) : bool :=
  error_free r && ((Status r =? 0) || (Status r <? 500)).

(** The spec's "retry-worthy failure". *)
Definition retry_worthy (r : Result) : Prop :=
  Error r <> None \/ 500 <= Status r.

(** [Result{URL: url, Error: ctx.Err(), When: time.Now()}] *)
Definition cancelled (w : World) (url : string) : Eff Result :=
  t <- now w ;;
  ret {| URL := url; Status := 0; Duration := 0;
         Error := Some context_Canceled; When := t |}.

(** *** The expression of line 90

    The typing of Go's constants and shifts, for the expressions built
    from integer constants, the [int] variable [attempt], [<<], [*] and
    conversions to [int] and [float64].  An untyped constant takes its
    type from where it stands.  "If the left operand of a non-constant
    shift expression is an untyped constant, it is first implicitly
    converted to the type it would assume if the shift expression were
    replaced by its left operand alone", and the left operand of a shift
    must be an integer: [float64(1 << s)] is rejected, "1 has type
    float64, cannot shift". *)
Module GoExpr.

Inductive type := Tint | Tfloat64.

Inductive expr :=
| Const (n : Z)               (* an untyped integer constant *)
| Var                         (* the variable [attempt], an [int] *)
| Shl (l r : expr)            (* l << r *)
| Mul (l r : expr)            (* l * r *)
| Conv (t : type) (e : expr). (* t(e) *)

Definition type_eqb (a b : type) : bool :=
  match a, b with
  | Tint, Tint | Tfloat64, Tfloat64 => true
  | _, _ => false
  end.

(** A constant expression: no variable in it. *)
Fixpoint constant (e : expr) : bool :=
  match e with
  | Const _ => true
  | Var => false
  | Shl l r | Mul l r => constant l && constant r
  | Conv _ e' => constant e'
  end.

(** An operand with no type of its own, which takes the type of its
    context: an untyped constant, a product of such operands, and a shift
    whose left operand is one. *)
Fixpoint untyped (e : expr) : bool :=
  match e with
  | Const _ => true
  | Var => false
  | Shl l _ => untyped l
  | Mul l r => untyped l && untyped r
  | Conv _ _ => false
  end.

(** The type of [e] where the context gives [ctx] to an operand that has
    none; [None] when the compiler rejects [e]. *)
Fixpoint typeof (ctx : type) (e : expr) : option type :=
  match e with
  | Const n =>
    match ctx with
    | Tint =>
      if (Int64.MinInt64 <=? n) && (n <=? Int64.MaxInt64) then Some Tint else None
    | Tfloat64 => Some Tfloat64
    end
  | Var => Some Tint
  | Conv t e' =>
    match typeof t e' with
    | Some _ => Some t
    | None => None
    end
  | Mul l r =>
    let operands :=
      if untyped l then (if untyped r then Some ctx else typeof ctx r)
      else typeof ctx l in
    match operands with
    | None => None
    | Some t =>
      match typeof t l, typeof t r with
      | Some tl, Some tr => if type_eqb tl t && type_eqb tr t then Some t else None
      | _, _ => None
      end
    end
  | Shl l r =>
    match typeof Tint r with
    | Some Tint =>
      if untyped l && constant l && constant r then
        (* a constant shift of an untyped constant: an integer constant,
           itself untyped *)
        match typeof Tint l with
        | Some Tint => Some ctx
        | _ => None
        end
      else
        (* the left operand, typed by the context if it has no type of
           its own, must be an integer *)
        match typeof ctx l with
        | Some Tint => Some Tint
        | _ => None
        end
    | _ => None
    end
  end.

Inductive value := VInt (n : Z) | VFloat (f : float64).

(** The value of a well-typed [e]; [None] when the evaluation panics
    (a negative shift count). *)
Fixpoint eval (indefinite attempt : Z) (ctx : type) (e : expr) : option value :=
  match e with
  | Const n =>
    Some (match ctx with Tint => VInt n | Tfloat64 => VFloat (Float64.of_int n) end)
  | Var => Some (VInt attempt)
  | Conv t e' =>
    match eval indefinite attempt t e', t with
    | Some (VInt n), Tint => Some (VInt n)
    | Some (VInt n), Tfloat64 => Some (VFloat (Float64.of_int n))
    | Some (VFloat f), Tint => Some (VInt (Float64.to_int64 indefinite f))
    | Some (VFloat f), Tfloat64 => Some (VFloat f)
    | None, _ => None
    end
  | Mul l r =>
    let t :=
      if untyped l then (if untyped r then Some ctx else typeof ctx r)
      else typeof ctx l in
    match t with
    | None => None
    | Some t =>
      match eval indefinite attempt t l, eval indefinite attempt t r with
      | Some (VInt a), Some (VInt b) => Some (VInt (Int64.mul a b))
      | Some (VFloat a), Some (VFloat b) => Some (VFloat (Float64.mul a b))
      | _, _ => None
      end
    end
  | Shl l r =>
    match eval indefinite attempt Tint l, eval indefinite attempt Tint r with
    | Some (VInt a), Some (VInt c) =>
      match Int64.shl a c with
      | None => None
      | Some n =>
        Some (if untyped l && constant l && constant r
              then match ctx with
                   | Tint => VInt n
                   | Tfloat64 => VFloat (Float64.of_int n)
                   end
              else VInt n)
      end
    | _, _ => None
    end
  end.

(** What becomes of a statement [x := e]. *)
Inductive result :=
| Ill_typed          (* the compiler rejects it *)
| Panics             (* it panics when it is run *)
| Value (v : value).

Definition run (indefinite attempt : Z) (e : expr) : result :=
  match typeof Tint e with
  | None => Ill_typed
  | Some _ =>
    match eval indefinite attempt Tint e with
    | None => Panics
    | Some v => Value v
    end
  end.

End GoExpr.

(** [float64(100 * (1 << attempt))], the right-hand side of line 90. *)
Definition line_90 : GoExpr.expr :=
  GoExpr.Conv GoExpr.Tfloat64
    (GoExpr.Mul (GoExpr.Const 100) (GoExpr.Shl (GoExpr.Const 1) GoExpr.Var)).

(** The same computation with the shift taken on [int], as
    [float64(100 * (int(1) << attempt))] would have it: not what the
    source says; it is there to be compared with [line_90]. *)
Definition line_90_on_int : GoExpr.expr :=
  GoExpr.Conv GoExpr.Tfloat64
    (GoExpr.Mul (GoExpr.Const 100)
       (GoExpr.Shl (GoExpr.Conv GoExpr.Tint (GoExpr.Const 1)) GoExpr.Var)).

(** [base := float64(100 * (1 << attempt))] *)
Definition backoff_base (indefinite attempt : Z) : GoExpr.result :=
  GoExpr.run indefinite attempt line_90.

Definition Millisecond : Z := 1000000.

(** [time.Duration(base+jitter) * time.Millisecond] with
    [jitter := rand.Float64() * base], in nanoseconds. *)
Definition backoff_sleep (indefinite : Z) (base r : float64) : Z :=
  let jitter := Float64.mul r base in
  Int64.mul (Float64.to_int64 indefinite (Float64.add base jitter)) Millisecond.

(** [select { case <-time.After(sleep): case <-ctx.Done(): ... }]:
    [true] when the context wins. *)
Definition select_after_or_done (w : World) (sleep : Z) : Eff bool :=
  _ <- log_timer sleep ;;
  ctx_poll w.

(** How a call ends: it returns, it panics, or it reaches the statement
    that the compiler rejects, from where the program has no behaviour. *)
Inductive Outcome :=
| Returned (r : Result)
| Panicked
| Rejected.

(** The [for attempt := 0; attempt <= maxRetries; attempt++] loop, entered
    at [attempt]; [None] when the fuel runs out first. *)
Fixpoint retry_loop (fuel : nat) (w : World) (url : string)
  (maxRetries attempt : Z) (last : Result) : Eff (option Outcome) :=
  match fuel with
  | O => ret None
  | S fuel' =>
    if attempt <=? maxRetries then
      done <- ctx_poll w ;;
      if (done : bool) then
        r <- cancelled w url ;; ret (Some (Returned r))
      else
        o <- pingOnce w url ;;
        match o with
        | None => ret (Some Panicked)
        | Some last =>
          if retry_terminal last then ret (Some (Returned last))
          else if attempt <? maxRetries then
            match backoff_base (conv_indefinite w) attempt with
            | GoExpr.Ill_typed => ret (Some Rejected)
            | GoExpr.Panics => ret (Some Panicked)
            | GoExpr.Value (GoExpr.VInt _) =>
              (* [rand.Float64() * base] would mix [float64] and [int] *)
              ret (Some Rejected)
            | GoExpr.Value (GoExpr.VFloat base) =>
              r <- draw w ;;
              let sleep := backoff_sleep (conv_indefinite w) base r in
              done <- select_after_or_done w sleep ;;
              if (done : bool) then
                c <- cancelled w url ;; ret (Some (Returned c))
              else retry_loop fuel' w url maxRetries (Int64.add attempt 1) last
            end
          else retry_loop fuel' w url maxRetries (Int64.add attempt 1) last
        end
    else ret (Some (Returned last))
  end.

Definition pingWithRetries (fuel : nat) (w : World) (url : string)
  (maxRetries : Z) : Eff (option Outcome) :=
  retry_loop fuel w url maxRetries 0 zero_Result.

(* ================================================================= *)
(** ** The collector goroutine and the summary *)

(** The counters that [main] declares before it starts the collector. *)
Record Stats := {
  total : Z;
  success : Z;
  failed : Z;
  sumNanos : Z;
  minLatency : Z;
  maxLatency : Z
}.

Definition stats0 : Stats :=
  {| total := 0; success := 0; failed := 0; sumNanos := 0;
     minLatency := Int64.MaxInt64; maxLatency := 0 |}.

(** [ok := (r.Error == nil) && (r.Status == 0 || r.Status < 400)] *)
Definition aggregate_ok (r : Result) : bool :=
  error_free r && ((Status r =? 0) || (Status r <? 400)).

(** The body of [for r := range results]. *)
Definition collect_one (st : Stats) (r : Result) : Stats :=
  let total' := Int64.add (total st) 1 in
  let success' := if aggregate_ok r then Int64.add (success st) 1 else success st in
  let failed' := if aggregate_ok r then failed st else Int64.add (failed st) 1 in
  if error_free r then
    let n := Duration r in
    {| total := total'; success := success'; failed := failed';
       sumNanos := Int64.add (sumNanos st) n;
       minLatency := if n <? minLatency st then n else minLatency st;
       maxLatency := if maxLatency st <? n then n else maxLatency st |}
  else
    {| total := total'; success := success'; failed := failed';
       sumNanos := sumNanos st;
       minLatency := minLatency st;
       maxLatency := maxLatency st |}.

(** The collector after it has consumed [rs], in arrival order. *)
Definition collector (rs : list Result) : Stats := fold_left collect_one rs stats0.

(** What [main] prints under [---- summary ----]: the three counts, and
    the latency line only when [tot > 0]. *)
Record Summary := {
  requests : Z;
  succeeded : Z;
  failures : Z;
  latency_line : option (Z * Z * Z)  (* avg, min, max *)
}.

(** [if tot > 0 && sumNanos > 0 { avg = time.Duration(sumNanos / tot) }] *)
Definition average (st : Stats) : Z :=
  if (0 <? total st) && (0 <? sumNanos st) then Z.quot (sumNanos st) (total st) else 0.

Definition summary (st : Stats) : Summary :=
  {| requests := total st;
     succeeded := success st;
     failures := failed st;
     latency_line :=
       if 0 <? total st then Some (average st, minLatency st, maxLatency st)
       else None |}.

(** Reference quantities over the list of consumed results. *)
Definition error_free_results (rs : list Result) : list Result := filter error_free rs.

Definition sum_durations (rs : list Result) : Z :=
  fold_right (fun r acc => Duration r + acc) 0 rs.

Definition count (p : Result -> bool) (rs : list Result) : Z :=
  Z.of_nat (List.length (filter p rs)).

Definition min_duration (rs : list Result) : Z :=
  fold_right (fun r acc => Z.min (Duration r) acc) Int64.MaxInt64 rs.

Definition max_duration (rs : list Result) : Z :=
  fold_right (fun r acc => Z.max (Duration r) acc) 0 rs.

(** The mean latency of [rs], zero when there is none: the reading of
    "average latency over successful results only". *)
Definition mean_duration (rs : list Result) : Z :=
  match rs with
  | [] => 0
  | _ => Z.quot (sum_durations rs) (Z.of_nat (List.length rs))
  end.

(** *** The summary as [main] reads it

    After [wg.Wait()] every result is in the [results] channel or already
    consumed.  [main] then closes the channel and goes straight on to the
    summary: its comment says "close results and wait collector to
    finish", but nothing waits.  The collector may still be at work on
    the results left in the channel while [main] reads the counters, one
    after the other.  The body of the collector's loop is therefore taken
    statement by statement. *)
Inductive Op :=
| OpTotal          (* atomic.AddInt64(&total, 1) *)
| OpSuccess        (* atomic.AddInt64(&success, 1) *)
| OpFailed         (* atomic.AddInt64(&failed, 1) *)
| OpSum (n : Z)    (* atomic.AddInt64(&sumNanos, n) *)
| OpMin (n : Z)    (* if n < minLatency { minLatency = n } *)
| OpMax (n : Z).   (* if n > maxLatency { maxLatency = n } *)

Definition apply_op (st : Stats) (o : Op) : Stats :=
  match o with
  | OpTotal =>
    {| total := Int64.add (total st) 1; success := success st; failed := failed st;
       sumNanos := sumNanos st; minLatency := minLatency st;
       maxLatency := maxLatency st |}
  | OpSuccess =>
    {| total := total st; success := Int64.add (success st) 1; failed := failed st;
       sumNanos := sumNanos st; minLatency := minLatency st;
       maxLatency := maxLatency st |}
  | OpFailed =>
    {| total := total st; success := success st; failed := Int64.add (failed st) 1;
       sumNanos := sumNanos st; minLatency := minLatency st;
       maxLatency := maxLatency st |}
  | OpSum n =>
    {| total := total st; success := success st; failed := failed st;
       sumNanos := Int64.add (sumNanos st) n; minLatency := minLatency st;
       maxLatency := maxLatency st |}
  | OpMin n =>
    {| total := total st; success := success st; failed := failed st;
       sumNanos := sumNanos st;
       minLatency := if n <? minLatency st then n else minLatency st;
       maxLatency := maxLatency st |}
  | OpMax n =>
    {| total := total st; success := success st; failed := failed st;
       sumNanos := sumNanos st; minLatency := minLatency st;
       maxLatency := if maxLatency st <? n then n else maxLatency st |}
  end.

(** The statements that the body of [for r := range results] executes for
    [r], in order. *)
Definition collect_ops (r : Result) : list Op :=
  OpTotal
  :: (if aggregate_ok r then OpSuccess else OpFailed)
  :: (if error_free r
      then [OpSum (Duration r); OpMin (Duration r); OpMax (Duration r)]
      else []).

Definition collector_ops (rs : list Result) : list Op := flat_map collect_ops rs.

(** The counters once the collector, fed [rs], has executed [k] of its
    statements (all of them if there are fewer). *)
Definition collector_at (rs : list Result) (k : nat) : Stats :=
  fold_left apply_op (firstn k (collector_ops rs)) stats0.

(** How far the collector has come at each read that [main] makes:
    [tot], [succ] and [fail] (lines 277 to 279), [sumNanos] twice
    (line 281, the test and the division of line 282), [minLatency] and
    [maxLatency] (line 288). *)
Record Reads := {
  at_total : nat;
  at_success : nat;
  at_failed : nat;
  at_sum_test : nat;
  at_sum : nat;
  at_min : nat;
  at_max : nat
}.

(** [main] reads in the order of its text, and the collector never goes
    back. *)
Definition in_program_order (k : Reads) : Prop :=
  (at_total k <= at_success k)%nat
  /\ (at_success k <= at_failed k)%nat
  /\ (at_failed k <= at_sum_test k)%nat
  /\ (at_sum_test k <= at_sum k)%nat
  /\ (at_sum k <= at_min k)%nat
  /\ (at_min k <= at_max k)%nat.

(** Every read made once the collector has executed [n] statements. *)
Definition all_at (n : nat) : Reads :=
  {| at_total := n; at_success := n; at_failed := n; at_sum_test := n;
     at_sum := n; at_min := n; at_max := n |}.

(** [main] has read [total] after the first statement of the collector,
    and everything else after its [n]-th. *)
Definition total_first (n : nat) : Reads :=
  {| at_total := 1; at_success := n; at_failed := n; at_sum_test := n;
     at_sum := n; at_min := n; at_max := n |}.

(** What [main] prints, lines 277 to 289, for the results [rs] and the
    reads [k]. *)
Definition printed_summary (rs : list Result) (k : Reads) : Summary :=
  let tot := total (collector_at rs (at_total k)) in
  let succ := success (collector_at rs (at_success k)) in
  let fail := failed (collector_at rs (at_failed k)) in
  let avg :=
    if (0 <? tot) && (0 <? sumNanos (collector_at rs (at_sum_test k)))
    then Z.quot (sumNanos (collector_at rs (at_sum k))) tot
    else 0 in
  {| requests := tot;
     succeeded := succ;
     failures := fail;
     latency_line :=
       if 0 <? tot
       then Some (avg, minLatency (collector_at rs (at_min k)),
                  maxLatency (collector_at rs (at_max k)))
       else None |}.

(** The collector has finished before [main] reads anything. *)
Definition after_the_collector (rs : list Result) (k : Reads) : Prop :=
  (List.length (collector_ops rs) <= at_total k)%nat /\ in_program_order k.

(** A statement of the collector that touches the three counts only. *)
Definition counts_only (o : Op) : Prop :=
  match o with
  | OpTotal | OpSuccess | OpFailed => True
  | _ => False
  end.

(* ================================================================= *)
(** ** The worker goroutine spawned per (round, URL) *)

Record Config := {
  concurrency : Z;
  rate : Z;
  retries : Z
}.

(** What the goroutines share: the context, the [sem] channel (its
    length), [tokenCh] (its length) and the buffered [results] channel. *)
Record Shared := {
  ctx_done : bool;
  sem : nat;
  tokens : nat;
  results : list Result
}.

Definition results_capacity : nat := 1000.

(** Where a worker stands in its body. *)
Inductive Pc :=
| AtAcquire                (* sem <- struct{}{} *)
| AtTokenWait              (* select { <-ctx.Done() | <-tokenCh } *)
| AtPing                   (* res := pingWithRetries(...) *)
| AtSubmit (res : Result)  (* select { <-ctx.Done() | results <- res } *)
| AtRelease                (* the deferred <-sem *)
| AtDone                   (* the deferred wg.Done() has run *)
| Unwinding                (* a panic: the deferred calls are to run *)
| Crashed.                 (* they have run: the program crashes *)

Inductive Event :=
| EvAcquirePermit
| EvAcquireToken
| EvRetryPolicy (res : Result)
| EvSubmit (res : Result)
| EvReleasePermit.

(** What the scheduler and the world decide for one step of a worker:
    which ready case a [select] takes when both are ready, and the world
    (with the fuel to run it) that [pingWithRetries] meets. *)
Record Pick := {
  prefer_done : bool;
  world : World;
  fuel : nat
}.

(** The world of a call made while the shared context is in state [done]:
    a cancelled context stays cancelled. *)
Definition under_ctx (done : bool) (w : World) : World :=
  {| url_Parse := url_Parse w;
     client_Do := client_Do w; time_Now := time_Now w;
     rand_Float64 := rand_Float64 w;
     ctx_Done := fun n => done || ctx_Done w n;
     conv_indefinite := conv_indefinite w |}.

(** Whether one of the first [n] observations found the context cancelled. *)
Definition observed_done (w : World) (n : nat) : bool :=
  existsb (ctx_Done w) (seq 0 n).

Definition set_sem (sh : Shared) (n : nat) : Shared :=
  {| ctx_done := ctx_done sh; sem := n; tokens := tokens sh; results := results sh |}.

Definition set_tokens (sh : Shared) (n : nat) : Shared :=
  {| ctx_done := ctx_done sh; sem := sem sh; tokens := n; results := results sh |}.

Definition set_ctx_done (sh : Shared) (b : bool) : Shared :=
  {| ctx_done := b; sem := sem sh; tokens := tokens sh; results := results sh |}.

Definition push_result (sh : Shared) (r : Result) : Shared :=
  {| ctx_done := ctx_done sh; sem := sem sh; tokens := tokens sh;
     results := results sh ++ [r] |}.

(** One step of the worker for [url]; [None] when the worker is blocked,
    has finished, or has reached line 90, where the program has no
    behaviour.  A panic inside [pingWithRetries] unwinds the goroutine:
    its deferred calls run, that is the permit goes back to [sem], and
    the program crashes. *)
Definition worker_step (cfg : Config) (url : string) (p : Pick)
  (sh : Shared) (pc : Pc) : option (Shared * Pc * list Event) :=
  match pc with
  | AtAcquire =>
    if Z.of_nat (sem sh) <? concurrency cfg then
      Some (set_sem sh (S (sem sh)),
            (if 0 <? rate cfg then AtTokenWait else AtPing),
            [EvAcquirePermit])
    else None
  | AtTokenWait =>
    match ctx_done sh, tokens sh with
    | true, S n =>
      if prefer_done p then Some (sh, AtRelease, [])
      else Some (set_tokens sh n, AtPing, [EvAcquireToken])
    | true, O => Some (sh, AtRelease, [])
    | false, S n => Some (set_tokens sh n, AtPing, [EvAcquireToken])
    | false, O => None
    end
  | AtPing =>
    let w := under_ctx (ctx_done sh) (world p) in
    match pingWithRetries (fuel p) w url (retries cfg) run0 with
    | (None, _) => None
    | (Some Rejected, _) => None
    | (Some Panicked, _) => Some (sh, Unwinding, [])
    | (Some (Returned res), s) =>
      Some (set_ctx_done sh (ctx_done sh || observed_done w (n_ctx s)),
            AtSubmit res, [EvRetryPolicy res])
    end
  | AtSubmit res =>
    let room := (List.length (results sh) <? results_capacity)%nat in
    match ctx_done sh, room with
    | true, true =>
      if prefer_done p then Some (sh, AtRelease, [])
      else Some (push_result sh res, AtRelease, [EvSubmit res])
    | true, false => Some (sh, AtRelease, [])
    | false, true => Some (push_result sh res, AtRelease, [EvSubmit res])
    | false, false => None
    end
  | AtRelease =>
    match sem sh with
    | S n => Some (set_sem sh n, AtDone, [EvReleasePermit])
    | O => None
    end
  | AtDone => None
  | Unwinding =>
    match sem sh with
    | S n => Some (set_sem sh n, Crashed, [EvReleasePermit])
    | O => None
    end
  | Crashed => None
  end.

(** A worker run from [pc]: before each of its steps the shared state is
    whatever the other goroutines made of it. *)
Fixpoint worker_run (cfg : Config) (url : string)
  (sched : list (Shared * Pick)) (pc : Pc) : option (Pc * list Event) :=
  match sched with
  | [] => Some (pc, [])
  | (sh, p) :: rest =>
    match worker_step cfg url p sh pc with
    | None => None
    | Some (_, pc', evs) =>
      match worker_run cfg url rest pc' with
      | None => None
      | Some (pc'', evs') => Some (pc'', evs ++ evs')
      end
    end
  end.

Definition is_submit (e : Event) : bool :=
  match e with EvSubmit _ => true | _ => false end.

Definition submissions (evs : list Event) : nat := List.length (filter is_submit evs).

(** How far a worker has come. *)
Definition pc_rank (pc : Pc) : nat :=
  match pc with
  | AtAcquire => 0
  | AtTokenWait => 1
  | AtPing => 2
  | AtSubmit _ => 3
  | AtRelease => 4
  | AtDone => 5
  | Unwinding => 4
  | Crashed => 5
  end%nat.

(** What is left of the body from [pc] when nothing is cancelled. *)
Definition remaining (cfg : Config) (pc : Pc) (evs : list Event) : Prop :=
  match pc with
  | AtAcquire =>
    exists res,
      evs = EvAcquirePermit
            :: (if 0 <? rate cfg then [EvAcquireToken] else [])
            ++ [EvRetryPolicy res; EvSubmit res; EvReleasePermit]
  | AtTokenWait =>
    exists res, evs = [EvAcquireToken; EvRetryPolicy res; EvSubmit res; EvReleasePermit]
  | AtPing => exists res, evs = [EvRetryPolicy res; EvSubmit res; EvReleasePermit]
  | AtSubmit res => evs = [EvSubmit res; EvReleasePermit]
  | AtRelease => evs = [EvReleasePermit]
  | AtDone => evs = []
  | Unwinding => False
  | Crashed => False
  end.

Definition never_cancelled (sched : list (Shared * Pick)) : Prop :=
  Forall (fun x => ctx_done (fst x) = false) sched.

(** Whether the step from [pc] to [pc'] took the
    [case <-ctx.Done(): return] of one of the two [select]s of the worker:
    from the token wait it goes straight to the release; from the
    submission it sends nothing. *)
Definition took_cancelled_case (pc pc' : Pc) (evs : list Event) : bool :=
  match pc, pc' with
  | AtTokenWait, AtRelease => true
  | AtSubmit _, _ => match evs with [] => true | _ => false end
  | _, _ => false
  end.

(** Whether a run of the worker observes the cancellation at its token
    wait or at its submission. *)
Fixpoint observes_cancellation (cfg : Config) (url : string)
  (sched : list (Shared * Pick)) (pc : Pc) : bool :=
  match sched with
  | [] => false
  | (sh, p) :: rest =>
    match worker_step cfg url p sh pc with
    | None => false
    | Some (_, pc', evs) =>
      took_cancelled_case pc pc' evs || observes_cancellation cfg url rest pc'
    end
  end.


(** The position of a step in the body of the worker, as the code has it. *)
Definition code_rank (e : Event) : nat :=
  match e with
  | EvAcquirePermit => 0
  | EvAcquireToken => 1
  | EvRetryPolicy _ => 2
  | EvSubmit _ => 3
  | EvReleasePermit => 4
  end%nat.

(* ================================================================= *)
(** ** Sample worlds and results, used to run the model *)

(** Every URL parses and every request gets [reply]; the clock advances
    10ms per reading; the jitter drawn is always 1/2; the context is never
    cancelled. *)
Definition steady_world (reply : option Response * option go_error) : World :=
  {| url_Parse := fun _ => true;
     client_Do := fun _ _ _ => reply;
     time_Now := fun n => Z.of_nat n * 10000000;
     rand_Float64 := fun _ => Float64.mk 1 (-1);
     ctx_Done := fun _ => false;
     conv_indefinite := Int64.MinInt64 |}.

Definition refused : go_error := transport_error "connection refused".

Definition world_down : World := steady_world (None, Some refused).
Definition world_430 : World := steady_world (Some {| StatusCode := 430 |}, None).
Definition world_200 : World := steady_world (Some {| StatusCode := 200 |}, None).

(** The two results of the end-to-end scenario of the specification: [A]
    answers 200 in 10ms, [B] fails at the transport level. *)
Definition result_A : Result :=
  {| URL := "A"; Status := 200; Duration := 10000000; Error := None; When := 0 |}.
Definition result_B : Result :=
  {| URL := "B"; Status := 0; Duration := 3000000; Error := Some refused; When := 0 |}.

(** A second success, in 20ms. *)
Definition result_20ms : Result :=
  {| URL := "B"; Status := 200; Duration := 20000000; Error := None; When := 0 |}.

(** The same world with every request refused and the jitter drawn [r]. *)
Definition world_jitter (r : float64) : World :=
  {| url_Parse := url_Parse world_down;
     client_Do := client_Do world_down;
     time_Now := time_Now world_down;
     rand_Float64 := fun _ => r;
     ctx_Done := ctx_Done world_down;
     conv_indefinite := conv_indefinite world_down |}.

(** 1/256, and the largest float64 below 1. *)
Definition jitter_1_256 : float64 := Float64.mk 1 (-8).
Definition jitter_below_1 : float64 := Float64.mk (2 ^ 53 - 1) (-53).

(** Whether the model and the hardware floats compute the same
    [base + r * base]. *)
Definition agrees_with_hardware (r base : float64) : bool :=
  PrimFloat.eqb
    (Float64.to_prim (Float64.add base (Float64.mul r base)))
    (PrimFloat.add (Float64.to_prim base)
       (PrimFloat.mul (Float64.to_prim r) (Float64.to_prim base))).

Definition sample_jitters : list float64 :=
  [Float64.mk 0 0; jitter_1_256; jitter_below_1;
   Float64.mk 6004799503160661 (-54);   (* about 1/3 *)
   Float64.mk 8106479329266893 (-53);   (* about 0.9 *)
   Float64.mk 1 (-63);
   Float64.mk 4503599627370497 (-52 - 1022)].  (* just above the least normal *)

Definition sample_bases : list float64 :=
  [Float64.mk 100 0; Float64.mk 200 0; Float64.mk 800 0;
   Float64.mk 102400 0; Float64.mk 3435973836800 0].

(** Configurations and shared states for the worker scenarios. *)
Definition cfg_rate_limited : Config := {| concurrency := 1; rate := 5; retries := 2 |}.
Definition cfg_unlimited : Config := {| concurrency := 1; rate := 0; retries := 2 |}.

Definition shared_idle : Shared :=
  {| ctx_done := false; sem := 0; tokens := 1; results := [] |}.
Definition shared_held : Shared :=
  {| ctx_done := false; sem := 1; tokens := 0; results := [] |}.
(** Cancelled, the only permit taken, no token in the bucket. *)
Definition shared_cancelled : Shared :=
  {| ctx_done := true; sem := 1; tokens := 0; results := [] |}.

Definition pick_send : Pick := {| prefer_done := false; world := world_200; fuel := 4 |}.
Definition pick_done : Pick := {| prefer_done := true; world := world_200; fuel := 4 |}.

Definition result_200 : Result :=
  {| URL := "A"; Status := 200; Duration := 10000000; Error := None; When := 0 |}.
Definition result_cancelled : Result :=
  {| URL := "A"; Status := 0; Duration := 0; Error := Some context_Canceled; When := 0 |}.

(** Three schedules of one worker for ["A"]: an undisturbed run under a
    rate limit; a run that finds the context cancelled while it waits for
    a token; a run (no rate limit) whose context is cancelled before the
    retry policy starts and whose final [select] takes the cancelled case. *)
Definition sched_undisturbed : list (Shared * Pick) :=
  [(shared_idle, pick_send); (set_tokens shared_held 1, pick_send);
   (shared_held, pick_send); (shared_held, pick_send); (shared_held, pick_send)].

Definition sched_cancelled_at_token : list (Shared * Pick) :=
  [(shared_idle, pick_send); (shared_cancelled, pick_send); (shared_cancelled, pick_send)].

Definition sched_cancelled_at_submit : list (Shared * Pick) :=
  [(shared_idle, pick_done); (shared_cancelled, pick_done);
   (shared_cancelled, pick_done); (shared_cancelled, pick_done)].

(** An undisturbed run under a rate limit whose context is cancelled only
    once the result is submitted, before the permit is released. *)
Definition sched_cancelled_at_release : list (Shared * Pick) :=
  [(shared_idle, pick_send); (set_tokens shared_held 1, pick_send);
   (shared_held, pick_send); (shared_held, pick_send); (shared_cancelled, pick_send)].

(* ================================================================= *)
(** ** Vocabulary for the results of the prober and of the retry policy *)

(** [resp.StatusCode] of a response, 0 when there is none. *)
Definition status_of (resp : option Response) : Z :=
  match resp with Some r => StatusCode r | None => 0 end.



(* ================================================================= *)
(** ** The URL file: [loadURLsFromFile] and the start of [main]

    Go strings are byte strings; [strings.TrimSpace] removes the leading
    and the trailing runes for which [unicode.IsSpace] holds.  These are
    the six ASCII ones and, in their UTF-8 encodings of two or three
    bytes, U+0085, U+00A0, U+1680, U+2000..U+200A, U+2028, U+2029,
    U+202F, U+205F and U+3000. *)

Definition space1 (c : ascii) : bool :=
  let n := nat_of_ascii c in ((9 <=? n)%nat && (n <=? 13)%nat || (n =? 32)%nat).

Definition space2 (c1 c2 : ascii) : bool :=
  let n1 := nat_of_ascii c1 in
  let n2 := nat_of_ascii c2 in
  ((n1 =? 194) && ((n2 =? 133) || (n2 =? 160)))%nat.

Definition space3 (c1 c2 c3 : ascii) : bool :=
  let n1 := nat_of_ascii c1 in
  let n2 := nat_of_ascii c2 in
  let n3 := nat_of_ascii c3 in
  ((n1 =? 225) && (n2 =? 154) && (n3 =? 128)
   || (n1 =? 226) && (n2 =? 128)
      && ((128 <=? n3) && (n3 <=? 138) || (n3 =? 168) || (n3 =? 169) || (n3 =? 175))
   || (n1 =? 226) && (n2 =? 129) && (n3 =? 159)
   || (n1 =? 227) && (n2 =? 128) && (n3 =? 128))%nat.

(** Drop the white-space runes at the front. *)
Fixpoint trim_left (s : string) : string :=
  match s with
  | EmptyString => EmptyString
  | String c1 r1 =>
    if space1 c1 then trim_left r1
    else
      match r1 with
      | EmptyString => s
      | String c2 r2 =>
        if space2 c1 c2 then trim_left r2
        else
          match r2 with
          | EmptyString => s
          | String c3 r3 => if space3 c1 c2 c3 then trim_left r3 else s
          end
      end
  end.

(** Whether [s] is the encoding of exactly one white-space rune. *)
Definition is_space_rune (s : string) : bool :=
  match s with
  | String c1 EmptyString => space1 c1
  | String c1 (String c2 EmptyString) => space2 c1 c2
  | String c1 (String c2 (String c3 EmptyString)) => space3 c1 c2 c3
  | _ => false
  end.

(** Drop the white-space runes at the back: a rune goes once everything
    behind it has gone. *)
Fixpoint trim_right (s : string) : string :=
  match s with
  | EmptyString => EmptyString
  | String c r =>
    let t := String c (trim_right r) in
    if is_space_rune t then EmptyString else t
  end.

Definition TrimSpace (s : string) : string := trim_right (trim_left s).

(** A string given by its bytes. *)
Definition bytes (l : list nat) : string := string_of_list_ascii (map ascii_of_nat l).

(** The body of the scanning loop for one line: [None] is [continue]. *)
Definition normalize_line (raw : string) : option string :=
  let line := TrimSpace raw in
  if (line =? "")%string || prefix "#" line then None
  else if negb (prefix "http://" line) && negb (prefix "https://" line)
       then Some ("https://" ++ line)%string
       else Some line.

(** [for sc.Scan() { ... urls = append(urls, line) }] over the lines the
    scanner delivers. *)
Fixpoint scan_lines (lines : list string) (urls : list string) : list string :=
  match lines with
  | [] => urls
  | raw :: rest =>
    match normalize_line raw with
    | None => scan_lines rest urls
    | Some line => scan_lines rest (urls ++ [line])
    end
  end.

(** What a [bufio.Scanner] makes of an opened file: the lines it delivers
    before [Scan] returns false, and its [Err()]. *)
Record Scan (E : Type) := {
  scanned : list string;
  scan_Err : option E
}.
Arguments scanned {E} _.
Arguments scan_Err {E} _.

(** [os_Open] answers for the file system: an error, or the scan of the
    file.  A nil slice is the empty list. *)
Definition loadURLsFromFile {E : Type} (os_Open : string -> E + Scan E) (path : string)
  : list string * option E :=
  match os_Open path with
  | inl err => ([], Some err)
  | inr sc => (scan_lines (scanned sc) [], scan_Err sc)
  end.

Definition has_scheme (u : string) : bool := prefix "http://" u || prefix "https://" u.

(** How [main] starts: it leaves with [os.Exit(1)] or goes on with the
    URLs it loaded. *)
Inductive Startup :=
| Exit (code : Z)
| Proceed (urls : list string).

Definition main_startup {E : Type} (os_Open : string -> E + Scan E) (path : string)
  : Startup :=
  match loadURLsFromFile os_Open path with
  | (_, Some _) => Exit 1
  | ([], None) => Exit 1
  | (urls, None) => Proceed urls
  end.

(** A file of three lines, and the file of the URLs loaded from it,
    written in another order. *)
Definition first_file : Scan unit :=
  {| scanned := ["  example.org "; "# a comment"; "http://a"]%string; scan_Err := None |}.

Definition reloaded_file : Scan unit :=
  {| scanned := ["http://a"; "https://example.org"]%string; scan_Err := None |}.

(** A string that [trim_left] leaves alone starts with no white space. *)
Definition starts_clean (s : string) : Prop :=
  match s with
  | EmptyString => True
  | String c1 r1 =>
    space1 c1 = false
    /\ match r1 with
       | EmptyString => True
       | String c2 r2 =>
         space2 c1 c2 = false
         /\ match r2 with
            | EmptyString => True
            | String c3 _ => space3 c1 c2 c3 = false
            end
       end
  end.

(** A byte below 128 that is no white space starts no white-space rune. *)
Definition inert (c : ascii) : Prop := (nat_of_ascii c < 128)%nat /\ space1 c = false.

(* ================================================================= *)
(** ** The rate limiter that [main] sets up *)

(** [x / y] on float64, rounded to nearest, ties to even: the quotient of
    the mantissas is taken with 64 extra bits and a sticky bit for the
    remainder.  [None] stands for a zero divisor (an infinity or a NaN in
    Go), which the callers below never produce. *)
Definition float64_div (x y : float64) : option float64 :=
  let mx := Float64.mant x in
  let my := Float64.mant y in
  if my =? 0 then None
  else
    let k := 64 + Float64.bits (Z.abs my) in
    let n := Z.abs mx * 2 ^ k in
    let q := n / Z.abs my in
    let sticky := if n mod Z.abs my =? 0 then 0 else 1 in
    Some (Float64.normalize (Z.sgn mx * Z.sgn my * (2 * q + sticky))
            (Float64.expo x - Float64.expo y - k - 1)).

(** [time.Second], in nanoseconds. *)
Definition Second : Z := 1000000000.

Inductive LimiterSetup :=
| NoLimiter                                 (* tokenCh stays nil *)
| LimiterPanics                             (* make or time.NewTicker panics *)
| Limiter (capacity : Z) (interval : Z).    (* cap(tokenCh), the ticker's period *)

(** With [rate > 0]: [tokenCh = make(chan struct{}, rate*2)], then
    [intervalDur := time.Duration(float64(time.Second) / float64(rate))]
    and [time.NewTicker(intervalDur)].  [make] panics on a negative size,
    [time.NewTicker] on a period that is not positive. *)
Definition rate_limiter_setup (indefinite : Z) (rate : Z) : LimiterSetup :=
  if 0 <? rate then
    let capacity := Int64.mul rate 2 in
    if capacity <? 0 then LimiterPanics
    else
      match float64_div (Float64.of_int Second) (Float64.of_int rate) with
      | None => LimiterPanics
      | Some f =>
        let intervalDur := Float64.to_int64 indefinite f in
        if intervalDur <=? 0 then LimiterPanics
        else Limiter capacity intervalDur
      end
  else NoLimiter.

(** Whether the model and the hardware floats compute the same
    [float64(a) / float64(b)]. *)
Definition div_agrees_with_hardware (a b : Z) : bool :=
  match float64_div (Float64.of_int a) (Float64.of_int b) with
  | None => false
  | Some f =>
    PrimFloat.eqb (Float64.to_prim f)
      (PrimFloat.div (Float64.to_prim (Float64.of_int a))
         (Float64.to_prim (Float64.of_int b)))
  end.

Definition sample_rates : list Z :=
  [1; 2; 3; 7; 10; 20; 333; 1000; 4096; 999999937; 1000000000; 1000000001;
   3000000000; 2 ^ 53 + 1; 2 ^ 62; Int64.MaxInt64].

(* ================================================================= *)
(** ** The dispatch loop of [main] *)

(** What the loop has done: the goroutines it spawned, as (round, URL), in
    order; how many inter-round waits ran out; how many times it looked at
    [ctx.Done()]. *)
Record Dispatch := {
  spawned : list (Z * string);
  waits : nat;
  polls : nat
}.

Definition dispatch0 : Dispatch := {| spawned := []; waits := 0; polls := 0 |}.

(** [for _, u := range urls]: each turn first polls the context; the
    boolean tells whether the turn took [break outer].  [done n] is what
    the [n]-th look at the context finds. *)
Fixpoint spawn_round (done : nat -> bool) (i : Z) (urls : list string) (d : Dispatch)
  : bool * Dispatch :=
  match urls with
  | [] => (false, d)
  | u :: rest =>
    if done (polls d) then
      (true, {| spawned := spawned d; waits := waits d; polls := S (polls d) |})
    else
      spawn_round done i rest
        {| spawned := spawned d ++ [(i, u)]; waits := waits d; polls := S (polls d) |}
  end.

(** [for i := 0; i < *count; i++]: a round, then, except after the last
    one, the [select] between the context and [time.After] of the interval. *)
Fixpoint dispatch_loop (fuel : nat) (done : nat -> bool) (count : Z) (urls : list string)
  (i : Z) (d : Dispatch) : option Dispatch :=
  match fuel with
  | O => None
  | S fuel' =>
    if i <? count then
      let (broke, d1) := spawn_round done i urls d in
      if broke then Some d1
      else if i <? Int64.add count (-1) then
        if done (polls d1) then
          Some {| spawned := spawned d1; waits := waits d1; polls := S (polls d1) |}
        else
          dispatch_loop fuel' done count urls (Int64.add i 1)
            {| spawned := spawned d1; waits := S (waits d1); polls := S (polls d1) |}
      else dispatch_loop fuel' done count urls (Int64.add i 1) d1
    else Some d
  end.

Definition dispatch (fuel : nat) (done : nat -> bool) (count : Z) (urls : list string)
  : option Dispatch :=
  dispatch_loop fuel done count urls 0 dispatch0.

(** [n] full rounds over [urls], numbered from [i]. *)
Fixpoint rounds_from (i : Z) (n : nat) (urls : list string) : list (Z * string) :=
  match n with
  | O => []
  | S n' => map (pair i) urls ++ rounds_from (i + 1) n' urls
  end.

(* ================================================================= *)
(** ** The program as a whole: goroutines over shared channels

    The workers spawned so far, the ticker goroutine, the collector and
    the signal handler, interleaved in any order over the shared state.
    [submitted] and [consumed] are history: every result sent on
    [results], and every result the collector received.  A worker that
    crashes ends the program; the model lets the other goroutines go on,
    which only adds states to those the invariants below cover. *)

Record Sys := {
  shared : Shared;
  workers : list (string * Pc);
  ticker_alive : bool;
  consumed : list Result;
  submitted : list Result
}.

Inductive Action :=
| ActSpawn (url : string)           (* go func(url string) {...}(u) *)
| ActWorker (i : nat) (p : Pick)    (* the i-th worker takes a step *)
| ActTick                           (* case <-ticker.C *)
| ActTickerExit                     (* case <-ctx.Done(): return *)
| ActCollect                        (* for r := range results *)
| ActCancel.                        (* cancel() *)

(** [cap(tokenCh)]. *)
Definition token_capacity (cfg : Config) : nat := Z.to_nat (Int64.mul (rate cfg) 2).

Definition sys0 (cfg : Config) : Sys :=
  {| shared := {| ctx_done := false; sem := 0; tokens := 0; results := [] |};
     workers := [];
     ticker_alive := 0 <? rate cfg;
     consumed := [];
     submitted := [] |}.

Definition update_nth {A : Type} (i : nat) (x : A) (l : list A) : list A :=
  firstn i l ++ x :: skipn (S i) l.

Definition submitted_in (evs : list Event) : list Result :=
  flat_map (fun e => match e with EvSubmit r => [r] | _ => [] end) evs.

(** One step of one goroutine; [None] when that goroutine cannot move. *)
Definition sys_step (cfg : Config) (a : Action) (y : Sys) : option Sys :=
  match a with
  | ActSpawn url =>
    Some {| shared := shared y; workers := workers y ++ [(url, AtAcquire)];
            ticker_alive := ticker_alive y; consumed := consumed y;
            submitted := submitted y |}
  | ActWorker i p =>
    match nth_error (workers y) i with
    | None => None
    | Some (url, pc) =>
      match worker_step cfg url p (shared y) pc with
      | None => None
      | Some (sh', pc', evs) =>
        Some {| shared := sh'; workers := update_nth i (url, pc') (workers y);
                ticker_alive := ticker_alive y; consumed := consumed y;
                submitted := submitted y ++ submitted_in evs |}
      end
    end
  | ActTick =>
    if ticker_alive y then
      let sh := shared y in
      Some {| shared := if (tokens sh <? token_capacity cfg)%nat
                        then set_tokens sh (S (tokens sh)) else sh;
              workers := workers y; ticker_alive := true;
              consumed := consumed y; submitted := submitted y |}
    else None
  | ActTickerExit =>
    if ticker_alive y && ctx_done (shared y) then
      Some {| shared := shared y; workers := workers y; ticker_alive := false;
              consumed := consumed y; submitted := submitted y |}
    else None
  | ActCollect =>
    match results (shared y) with
    | [] => None
    | r :: q =>
      Some {| shared := {| ctx_done := ctx_done (shared y); sem := sem (shared y);
                           tokens := tokens (shared y); results := q |};
              workers := workers y; ticker_alive := ticker_alive y;
              consumed := consumed y ++ [r]; submitted := submitted y |}
    end
  | ActCancel =>
    Some {| shared := set_ctx_done (shared y) true; workers := workers y;
            ticker_alive := ticker_alive y; consumed := consumed y;
            submitted := submitted y |}
  end.

Fixpoint sys_run (cfg : Config) (acts : list Action) (y : Sys) : option Sys :=
  match acts with
  | [] => Some y
  | a :: rest =>
    match sys_step cfg a y with
    | None => None
    | Some y' => sys_run cfg rest y'
    end
  end.

(** A worker holds a permit from its send on [sem] until the deferred
    receive. *)
Definition holds_permit (pc : Pc) : bool :=
  match pc with
  | AtAcquire | AtDone | Crashed => false
  | _ => true
  end.

Definition holders (ws : list (string * Pc)) : nat :=
  List.length (filter (fun x => holds_permit (snd x)) ws).

(** The workers inside [pingWithRetries]. *)
Definition pinging (ws : list (string * Pc)) : nat :=
  List.length (filter (fun x => match snd x with AtPing => true | _ => false end) ws).

Definition Inv (cfg : Config) (y : Sys) : Prop :=
  sem (shared y) = holders (workers y)
  /\ Z.of_nat (sem (shared y)) <= Z.max 0 (concurrency cfg)
  /\ (tokens (shared y) <= token_capacity cfg)%nat
  /\ (List.length (results (shared y)) <= results_capacity)%nat
  /\ submitted y = consumed y ++ results (shared y)
  /\ (rate cfg <= 0 -> ticker_alive y = false /\ tokens (shared y) = 0%nat).

(** A configuration whose retry budget is negative. *)
Definition cfg_no_attempts : Config := {| concurrency := 1; rate := 0; retries := -1 |}.

(** A context found cancelled from the fourth look on. *)
Definition done_from_3 (n : nat) : bool := (3 <=? n)%nat.

(** Two URLs under one permit and a rate limit: both workers are spawned,
    the ticker fires, the first worker runs up to its submission. *)
Definition run_to_release : list Action :=
  [ActSpawn "A"; ActSpawn "B"; ActTick;
   ActWorker 0 pick_send; ActWorker 0 pick_send; ActWorker 0 pick_send;
   ActWorker 0 pick_send].

(** The same run carried on: the result is collected, the first worker
    releases its permit and the second one takes it. *)
Definition run_two_workers : list Action :=
  run_to_release ++ [ActCollect; ActWorker 0 pick_send; ActTick; ActWorker 1 pick_send].

(** Where these two runs end. *)
Definition state_at_release : Sys :=
  {| shared := {| ctx_done := false; sem := 1; tokens := 0; results := [result_200] |};
     workers := [("A"%string, AtRelease); ("B"%string, AtAcquire)];
     ticker_alive := true;
     consumed := [];
     submitted := [result_200] |}.

Definition state_two_workers : Sys :=
  {| shared := {| ctx_done := false; sem := 1; tokens := 1; results := [] |};
     workers := [("A"%string, AtDone); ("B"%string, AtTokenWait)];
     ticker_alive := true;
     consumed := [result_200];
     submitted := [result_200] |}.

(* ================================================================= *)
(** * Properties *)

(** ** Facts on 64-bit arithmetic *)

Lemma wrap_in_range x : Int64.in_range x -> Int64.wrap x = x.
Proof.
  unfold Int64.in_range, Int64.wrap, Int64.MinInt64, Int64.MaxInt64, Int64.modulus.
  intros H. rewrite Z.mod_small by lia. lia.
Qed.

Lemma wrap_bounds x : Int64.in_range (Int64.wrap x).
Proof.
  unfold Int64.in_range, Int64.wrap, Int64.MinInt64, Int64.MaxInt64, Int64.modulus.
  pose proof (Z.mod_pos_bound (x - -9223372036854775808) 18446744073709551616).
  lia.
Qed.

Lemma add_one_differs x : Int64.add x 1 <> x.
Proof.
  unfold Int64.add, Int64.wrap, Int64.MinInt64, Int64.modulus. intros H.
  pose proof (Z.div_mod (x + 1 - -9223372036854775808) 18446744073709551616).
  lia.
Qed.

Lemma add_one_small x : 0 <= x < Int64.MaxInt64 -> Int64.add x 1 = x + 1.
Proof.
  intros H. unfold Int64.add. apply wrap_in_range.
  unfold Int64.in_range, Int64.MinInt64, Int64.MaxInt64 in *. lia.
Qed.

(** ** The collector *)

Lemma collector_snoc rs r : collector (rs ++ [r]) = collect_one (collector rs) r.
Proof. unfold collector. rewrite fold_left_app. reflexivity. Qed.

Lemma collect_one_total st r : total (collect_one st r) = Int64.add (total st) 1.
Proof. unfold collect_one. destruct (error_free r); reflexivity. Qed.

Lemma collect_one_success st r :
  success (collect_one st r)
  = if aggregate_ok r then Int64.add (success st) 1 else success st.
Proof. unfold collect_one. destruct (error_free r); reflexivity. Qed.

Lemma collect_one_failed st r :
  failed (collect_one st r)
  = if aggregate_ok r then failed st else Int64.add (failed st) 1.
Proof. unfold collect_one. destruct (error_free r); reflexivity. Qed.

Lemma collect_one_sum st r :
  sumNanos (collect_one st r)
  = if error_free r then Int64.add (sumNanos st) (Duration r) else sumNanos st.
Proof. unfold collect_one. destruct (error_free r); reflexivity. Qed.

Lemma collect_one_min st r :
  minLatency (collect_one st r)
  = if error_free r then Z.min (Duration r) (minLatency st) else minLatency st.
Proof.
  unfold collect_one. destruct (error_free r); simpl; [|reflexivity].
  destruct (Z.ltb_spec (Duration r) (minLatency st)); lia.
Qed.

Lemma collect_one_max st r :
  maxLatency (collect_one st r)
  = if error_free r then Z.max (Duration r) (maxLatency st) else maxLatency st.
Proof.
  unfold collect_one. destruct (error_free r); simpl; [|reflexivity].
  destruct (Z.ltb_spec (maxLatency st) (Duration r)); lia.
Qed.

Lemma error_free_spec r : error_free r = true <-> Error r = None.
Proof. unfold error_free. destruct (Error r); split; congruence. Qed.

Lemma aggregate_ok_spec r :
  aggregate_ok r = true <-> Error r = None /\ (Status r = 0 \/ Status r < 400).
Proof.
  unfold aggregate_ok.
  rewrite andb_true_iff, orb_true_iff, error_free_spec, Z.eqb_eq, Z.ltb_lt.
  reflexivity.
Qed.

Lemma count_split p rs :
  count p rs + count (fun r => negb (p r)) rs = Z.of_nat (List.length rs).
Proof.
  unfold count. induction rs as [|r rs IH]; simpl; [reflexivity|].
  destruct (p r); simpl List.length; lia.
Qed.

Lemma count_bounds p rs : 0 <= count p rs <= Z.of_nat (List.length rs).
Proof.
  pose proof (count_split p rs). unfold count in *. lia.
Qed.

Lemma count_snoc p rs r :
  count p (rs ++ [r]) = count p rs + (if p r then 1 else 0).
Proof.
  unfold count. rewrite filter_app, length_app. simpl.
  destruct (p r); simpl; lia.
Qed.

(** Below 2^63 results the three counters are plain counts. *)
Lemma collector_counts rs :
  Z.of_nat (List.length rs) <= Int64.MaxInt64 ->
  total (collector rs) = Z.of_nat (List.length rs)
  /\ success (collector rs) = count aggregate_ok rs
  /\ failed (collector rs) = count (fun r => negb (aggregate_ok r)) rs.
Proof.
  induction rs as [|r rs IH] using rev_ind; intros Hlen.
  - repeat split.
  - rewrite length_app in Hlen. simpl in Hlen.
    destruct IH as (Ht & Hs & Hf); [lia|].
    pose proof (count_bounds aggregate_ok rs) as Bs.
    pose proof (count_bounds (fun r => negb (aggregate_ok r)) rs) as Bf.
    rewrite collector_snoc, collect_one_total, collect_one_success, collect_one_failed.
    rewrite Ht, Hs, Hf, !count_snoc, length_app. simpl List.length.
    destruct (aggregate_ok r); simpl negb; cbv iota;
      rewrite ?add_one_small by lia; repeat split; lia.
Qed.

Lemma collector_min_le_max rs :
  (exists x, In x rs /\ error_free x = true) ->
  minLatency (collector rs) <= maxLatency (collector rs).
Proof.
  induction rs as [|r rs IH] using rev_ind; intros (x & Hin & Hx).
  - destruct Hin.
  - rewrite collector_snoc, collect_one_min, collect_one_max.
    destruct (error_free r) eqn:Er; [lia|].
    apply IH. apply in_app_or in Hin. destruct Hin as [Hin|[->|[]]].
    + eauto.
    + congruence.
Qed.

Lemma wrap_add_wrap x y : Int64.wrap (Int64.wrap x + y) = Int64.wrap (x + y).
Proof.
  unfold Int64.wrap. f_equal.
  replace ((x - Int64.MinInt64) mod Int64.modulus + Int64.MinInt64 + y - Int64.MinInt64)
    with ((x - Int64.MinInt64) mod Int64.modulus + y) by lia.
  rewrite Zplus_mod_idemp_l. f_equal. lia.
Qed.

Lemma sum_durations_app l1 l2 :
  sum_durations (l1 ++ l2) = sum_durations l1 + sum_durations l2.
Proof. unfold sum_durations. induction l1 as [|r l1 IH]; simpl; lia. Qed.

Lemma collector_sum rs :
  sumNanos (collector rs) = Int64.wrap (sum_durations (error_free_results rs)).
Proof.
  induction rs as [|r rs IH] using rev_ind; [reflexivity|].
  rewrite collector_snoc, collect_one_sum, IH.
  unfold error_free_results. rewrite filter_app, sum_durations_app. simpl.
  destruct (error_free r); simpl.
  - unfold Int64.add. rewrite wrap_add_wrap. f_equal. lia.
  - f_equal. lia.
Qed.

Lemma min_duration_snoc l r :
  min_duration (l ++ [r]) = Z.min (Duration r) (min_duration l).
Proof. unfold min_duration. induction l as [|x l IH]; simpl; lia. Qed.

Lemma max_duration_snoc l r :
  max_duration (l ++ [r]) = Z.max (Duration r) (max_duration l).
Proof. unfold max_duration. induction l as [|x l IH]; simpl; lia. Qed.

Lemma collector_extrema rs :
  minLatency (collector rs) = min_duration (error_free_results rs)
  /\ maxLatency (collector rs) = max_duration (error_free_results rs).
Proof.
  induction rs as [|r rs [IHmin IHmax]] using rev_ind; [split; reflexivity|].
  rewrite collector_snoc, collect_one_min, collect_one_max, IHmin, IHmax.
  unfold error_free_results. rewrite filter_app. simpl.
  destruct (error_free r).
  - rewrite min_duration_snoc, max_duration_snoc. split; reflexivity.
  - rewrite !app_nil_r. split; reflexivity.
Qed.

Lemma sum_durations_nonneg rs :
  (forall r, In r rs -> 0 <= Duration r) -> 0 <= sum_durations rs.
Proof.
  unfold sum_durations. induction rs as [|r rs IH]; simpl; intros H; [lia|].
  pose proof (H r (or_introl eq_refl)). specialize (IH (fun x Hx => H x (or_intror Hx))). lia.
Qed.

(** The statements of the loop body, run one after the other, are the
    loop body. *)
Lemma collect_ops_collect_one st r :
  fold_left apply_op (collect_ops r) st = collect_one st r.
Proof.
  unfold collect_ops, collect_one.
  destruct (aggregate_ok r), (error_free r); reflexivity.
Qed.

Lemma collector_ops_collector rs : forall st,
  fold_left apply_op (collector_ops rs) st = fold_left collect_one rs st.
Proof.
  induction rs as [|r rs IH]; intros st; [reflexivity|].
  unfold collector_ops in *.
  change (flat_map collect_ops (r :: rs)) with (collect_ops r ++ flat_map collect_ops rs).
  rewrite fold_left_app, collect_ops_collect_one. apply IH.
Qed.

Lemma collector_at_end rs k :
  (List.length (collector_ops rs) <= k)%nat -> collector_at rs k = collector rs.
Proof.
  intros H. unfold collector_at, collector.
  rewrite firstn_all2 by assumption. apply collector_ops_collector.
Qed.

(** Had [main] waited for the collector, it would print the summary of
    the collector's final state. *)
Lemma printed_after_the_collector rs k :
  after_the_collector rs k -> printed_summary rs k = summary (collector rs).
Proof.
  intros (H0 & H1 & H2 & H3 & H4 & H5 & H6).
  unfold printed_summary, summary, average.
  rewrite !collector_at_end by lia. reflexivity.
Qed.

(** The collector's final counters: the sum and the extrema of the
    latencies are those of the error-free results (whatever their
    status), and the quotient that [main] forms from them has the count
    of all consumed results, failed ones included, as its divisor. *)
Lemma collector_latency_stats rs :
  let st := collector rs in
  let ok := error_free_results rs in
  sumNanos st = Int64.wrap (sum_durations ok)
  /\ minLatency st = min_duration ok
  /\ maxLatency st = max_duration ok
  /\ (ok = [] -> average st = 0)
  /\ ((forall r, In r rs -> 0 <= Duration r) ->
      sum_durations ok <= Int64.MaxInt64 ->
      Z.of_nat (List.length rs) <= Int64.MaxInt64 ->
      sumNanos st = sum_durations ok
      /\ average st = Z.quot (sum_durations ok) (Z.of_nat (List.length rs))).
Proof.
  intros st ok. subst st ok.
  pose proof (collector_extrema rs) as [Hmin Hmax].
  pose proof (collector_sum rs) as Hsum.
  repeat split; try assumption.
  - intros Hnone. unfold average. rewrite Hsum, Hnone. simpl.
    rewrite andb_false_r. reflexivity.
  - rewrite Hsum. apply wrap_in_range.
    assert (0 <= sum_durations (error_free_results rs)).
    { apply sum_durations_nonneg. intros r Hr. apply H.
      unfold error_free_results in Hr. apply filter_In in Hr. tauto. }
    unfold Int64.in_range, Int64.MinInt64, Int64.MaxInt64 in *. lia.
  - assert (Hpos : 0 <= sum_durations (error_free_results rs)).
    { apply sum_durations_nonneg. intros r Hr. apply H.
      unfold error_free_results in Hr. apply filter_In in Hr. tauto. }
    destruct (collector_counts rs H1) as (Ht & _ & _).
    unfold average. rewrite Hsum, Ht, wrap_in_range
      by (unfold Int64.in_range, Int64.MinInt64, Int64.MaxInt64 in *; lia).
    destruct (Z.ltb_spec 0 (Z.of_nat (List.length rs)));
      destruct (Z.ltb_spec 0 (sum_durations (error_free_results rs))); simpl;
      try reflexivity.
    + replace (sum_durations (error_free_results rs)) with 0 by lia.
      rewrite Z.quot_0_l by lia. reflexivity.
    + replace (Z.of_nat (List.length rs)) with 0 by lia.
      destruct (sum_durations (error_free_results rs)); reflexivity.
    + replace (Z.of_nat (List.length rs)) with 0 by lia.
      destruct (sum_durations (error_free_results rs)); reflexivity.
Qed.

(** C4: what the code does.  [main] does not wait for the collector.
    Only when all its reads come after the collector's last statement
    does it print the summary of the final counters.  With two error-free
    results in the channel, [main] can read [total] when the collector
    has counted the first result only, and [sumNanos] when both latencies
    are in: it then prints one request and, as their average latency, the
    sum of the two latencies, which is above the maximum it prints and is
    not the mean latency of the successful results. *)
Theorem C4_summary_read_while_collecting :
  (forall rs k,
      after_the_collector rs k -> printed_summary rs k = summary (collector rs))
  /\ (forall r1 r2,
        Error r1 = None -> Error r2 = None ->
        0 < Duration r1 -> 0 < Duration r2 ->
        Duration r1 + Duration r2 <= Int64.MaxInt64 ->
        in_program_order (total_first 10)
        /\ requests (printed_summary [r1; r2] (total_first 10)) = 1
        /\ latency_line (printed_summary [r1; r2] (total_first 10))
           = Some (Duration r1 + Duration r2,
                   Z.min (Duration r1) (Duration r2),
                   Z.max (Duration r1) (Duration r2))
        /\ Z.max (Duration r1) (Duration r2) < Duration r1 + Duration r2
        /\ Duration r1 + Duration r2 <> mean_duration (error_free_results [r1; r2])).
Proof.
  split; [exact printed_after_the_collector|].
  intros r1 r2 E1 E2 H1 H2 Hsum.
  assert (F1 : error_free r1 = true) by (apply error_free_spec; assumption).
  assert (F2 : error_free r2 = true) by (apply error_free_spec; assumption).
  split; [unfold in_program_order, total_first; simpl; lia|].
  assert (T : total (collector_at [r1; r2] 1) = 1) by reflexivity.
  assert (L : collector_at [r1; r2] 10 = collect_one (collect_one stats0 r1) r2).
  { rewrite collector_at_end; [reflexivity|].
    unfold collector_ops, collect_ops. simpl. rewrite F1, F2. simpl. lia. }
  assert (S2 : sumNanos (collect_one (collect_one stats0 r1) r2)
               = Duration r1 + Duration r2).
  { rewrite !collect_one_sum, F1, F2. unfold Int64.add. simpl sumNanos.
    rewrite Z.add_0_l, wrap_add_wrap. apply wrap_in_range.
    unfold Int64.in_range, Int64.MinInt64, Int64.MaxInt64 in *. lia. }
  assert (Mn : minLatency (collect_one (collect_one stats0 r1) r2)
               = Z.min (Duration r1) (Duration r2)).
  { rewrite !collect_one_min, F1, F2. simpl minLatency.
    unfold Int64.MaxInt64 in *. lia. }
  assert (Mx : maxLatency (collect_one (collect_one stats0 r1) r2)
               = Z.max (Duration r1) (Duration r2)).
  { rewrite !collect_one_max, F1, F2. simpl maxLatency. lia. }
  unfold printed_summary, total_first.
  cbn [at_total at_success at_failed at_sum_test at_sum at_min at_max
       requests latency_line].
  rewrite T, L, S2, Mn, Mx.
  split; [reflexivity|]. split.
  - change (0 <? 1) with true. cbn [andb].
    destruct (Z.ltb_spec 0 (Duration r1 + Duration r2)); [|lia].
    rewrite Z.quot_1_r. reflexivity.
  - split; [lia|].
    unfold error_free_results. simpl filter. rewrite F1, F2.
    unfold mean_duration, sum_durations. simpl.
    rewrite Z.add_0_r. intros E.
    assert (Z.quot (Duration r1 + Duration r2) 2 < Duration r1 + Duration r2)
      by (apply Z.quot_lt; lia).
    lia.
Qed.

(** At the failing input: two results of 10ms and 20ms.  Read while the
    collector is at work, the summary says one request with an average of
    30ms and a maximum of 20ms.  And even read after the collector, the
    summary of [A] in 10ms and [B] failed says 5ms, the latency of [A]
    divided by the two results. *)
Lemma C4_summary_read_while_collecting_witness :
  requests (printed_summary [result_A; result_20ms] (total_first 10)) = 1
  /\ latency_line (printed_summary [result_A; result_20ms] (total_first 10))
     = Some (30000000, 10000000, 20000000)
  /\ mean_duration (error_free_results [result_A; result_20ms]) = 15000000
  /\ latency_line (printed_summary [result_A; result_B] (all_at 7))
     = Some (5000000, 10000000, 10000000)
  /\ mean_duration (error_free_results [result_A; result_B]) = 10000000.
Proof.
  destruct C4_summary_read_while_collecting as [Hwait Htorn].
  destruct (Htorn result_A result_20ms) as (_ & Hreq & Hline & _);
    try reflexivity; [unfold Int64.MaxInt64; simpl; lia|].
  split; [exact Hreq|]. split; [exact Hline|]. split; [reflexivity|].
  split; [|reflexivity].
  rewrite (Hwait [result_A; result_B] (all_at 7)); [reflexivity|].
  unfold after_the_collector, in_program_order, all_at. simpl. lia.
Defined.

(** The end-to-end scenario of the specification: two results, one
    success and one failure, and latency extrema taken from [A] alone. *)
Example end_to_end_scenario :
  collector [result_A; result_B]
  = {| total := 2; success := 1; failed := 1; sumNanos := 10000000;
       minLatency := 10000000; maxLatency := 10000000 |}.
Proof. reflexivity. Qed.

(** C7.  While fewer than 2^63 results have been consumed: after each
    consumed result [total = success + failed]; none of the three
    counters decreases; and once an error-free result has been recorded,
    [minLatency <= maxLatency]. *)
Theorem C7_counters_invariant rs r :
  Z.of_nat (List.length (rs ++ [r])) <= Int64.MaxInt64 ->
  let before := collector rs in
  let after := collector (rs ++ [r]) in
  total after = success after + failed after
  /\ total before <= total after
  /\ success before <= success after
  /\ failed before <= failed after
  /\ ((exists x, In x (rs ++ [r]) /\ Error x = None) ->
      minLatency after <= maxLatency after).
Proof.
  intros Hlen before after. subst before after.
  destruct (collector_counts (rs ++ [r]) Hlen) as (Ht & Hs & Hf).
  rewrite length_app in Hlen. simpl in Hlen.
  destruct (collector_counts rs) as (Ht0 & Hs0 & Hf0); [lia|].
  rewrite Ht, Hs, Hf, Ht0, Hs0, Hf0.
  pose proof (count_split aggregate_ok (rs ++ [r])).
  rewrite !count_snoc, length_app. simpl List.length.
  repeat split; try (destruct (aggregate_ok r); simpl; lia).
  - rewrite !count_snoc, length_app in H. simpl List.length in H. lia.
  - intros (x & Hin & Hx). apply collector_min_le_max.
    exists x. split; [assumption|]. apply error_free_spec. assumption.
Qed.

Lemma C7_counters_invariant_witness :
  let rs := [result_B; result_A] in
  let r := result_B in
  total (collector (rs ++ [r])) = 3
  /\ total (collector (rs ++ [r]))
     = success (collector (rs ++ [r])) + failed (collector (rs ++ [r]))
  /\ minLatency (collector (rs ++ [r])) <= maxLatency (collector (rs ++ [r])).
Proof.
  intros rs r.
  assert (Hlen : Z.of_nat (List.length (rs ++ [r])) <= Int64.MaxInt64)
    by (vm_compute; discriminate).
  destruct (C7_counters_invariant rs r Hlen) as (H1 & _ & _ & _ & H5).
  split; [reflexivity|]. split; [exact H1|].
  apply H5. exists result_A. split; [simpl; tauto | reflexivity].
Defined.

(** C8.  A consumed result adds one to [success] exactly when its error
    is absent and its status is 0 or below 400, and leaves [success]
    alone exactly otherwise; a result with status 0 and no error is
    counted as a success and enters the latency sum and extrema. *)
Theorem C8_success_classification st r :
  (success (collect_one st r) = Int64.add (success st) 1
   <-> Error r = None /\ (Status r = 0 \/ Status r < 400))
  /\ (success (collect_one st r) = success st
      <-> ~ (Error r = None /\ (Status r = 0 \/ Status r < 400)))
  /\ (forall url d t,
        let r0 := {| URL := url; Status := 0; Duration := d; Error := None; When := t |} in
        success (collect_one st r0) = Int64.add (success st) 1
        /\ failed (collect_one st r0) = failed st
        /\ sumNanos (collect_one st r0) = Int64.add (sumNanos st) d
        /\ minLatency (collect_one st r0) = Z.min d (minLatency st)
        /\ maxLatency (collect_one st r0) = Z.max d (maxLatency st)).
Proof.
  pose proof (add_one_differs (success st)) as Hne.
  split; [|split].
  - rewrite collect_one_success, <- aggregate_ok_spec.
    destruct (aggregate_ok r); split; congruence.
  - rewrite collect_one_success, <- aggregate_ok_spec.
    destruct (aggregate_ok r); split; congruence.
  - intros url d t r0.
    rewrite collect_one_success, collect_one_failed, collect_one_sum,
      collect_one_min, collect_one_max.
    repeat split.
Qed.

Lemma collector_no_error_free rs :
  (forall r, In r rs -> Error r <> None) ->
  minLatency (collector rs) = Int64.MaxInt64
  /\ maxLatency (collector rs) = 0
  /\ sumNanos (collector rs) = 0.
Proof.
  intros H.
  assert (E : error_free_results rs = []).
  { unfold error_free_results. induction rs as [|r rs IH]; simpl; [reflexivity|].
    destruct (error_free r) eqn:Er.
    - apply error_free_spec in Er. exfalso. apply (H r); simpl; tauto.
    - apply IH. intros x Hx. apply H. simpl. tauto. }
  pose proof (collector_extrema rs) as [Hmin Hmax].
  pose proof (collector_sum rs) as Hsum.
  rewrite E in *. repeat split; assumption.
Qed.

(** C10.  When every consumed result carries an error, [minLatency] is
    still its initial 2^63 - 1 and [maxLatency] still 0, and whenever
    [total > 0] the summary prints a latency line with exactly these two
    values (and a zero average). *)
Theorem C10_sentinels_are_printed rs :
  (forall r, In r rs -> Error r <> None) ->
  minLatency (collector rs) = 2 ^ 63 - 1
  /\ maxLatency (collector rs) = 0
  /\ (0 < total (collector rs) ->
      latency_line (summary (collector rs)) = Some (0, 2 ^ 63 - 1, 0)).
Proof.
  intros H. destruct (collector_no_error_free rs H) as (Hmin & Hmax & Hsum).
  repeat split; try assumption.
  intros Hpos. unfold summary, average. simpl.
  rewrite Hmin, Hmax, Hsum.
  destruct (Z.ltb_spec 0 (total (collector rs))); [reflexivity | lia].
Qed.

Lemma C10_sentinels_are_printed_witness :
  latency_line (summary (collector [result_B; result_B]))
  = Some (0, 9223372036854775807, 0).
Proof.
  assert (H : forall r, In r [result_B; result_B] -> Error r <> None).
  { intros r [<-|[<-|[]]]; discriminate. }
  destruct (C10_sentinels_are_printed _ H) as (_ & _ & Hline).
  apply Hline. reflexivity.
Defined.

Lemma counts_only_keep_latencies l : forall st,
  Forall counts_only l ->
  sumNanos (fold_left apply_op l st) = sumNanos st
  /\ minLatency (fold_left apply_op l st) = minLatency st
  /\ maxLatency (fold_left apply_op l st) = maxLatency st.
Proof.
  induction l as [|o l IH]; intros st H; [repeat split|].
  apply Forall_cons_iff in H. destruct H as [Ho Hl].
  destruct (IH (apply_op st o) Hl) as (H1 & H2 & H3).
  simpl fold_left. rewrite H1, H2, H3.
  destruct o; simpl in Ho; try contradiction; repeat split.
Qed.

Lemma collector_ops_of_failures rs :
  (forall r, In r rs -> Error r <> None) -> Forall counts_only (collector_ops rs).
Proof.
  induction rs as [|r rs IH]; intros H; [constructor|].
  unfold collector_ops in *.
  change (flat_map collect_ops (r :: rs)) with (collect_ops r ++ flat_map collect_ops rs).
  apply Forall_app. split; [|apply IH; intros x Hx; apply H; simpl; tauto].
  assert (E : error_free r = false).
  { apply not_true_iff_false. rewrite error_free_spec. apply H. simpl. tauto. }
  unfold collect_ops, aggregate_ok. rewrite E. simpl.
  repeat constructor.
Qed.

(** X20.  When every result carries an error, the latency line of the
    summary, if [main] prints one, reads (0, 2^63 - 1, 0) at whatever
    moments [main] reads the counters, before or after the collector has
    finished: the collector never writes [sumNanos], [minLatency] or
    [maxLatency]. *)
Theorem sentinels_at_any_read rs k :
  (forall r, In r rs -> Error r <> None) ->
  (0 < requests (printed_summary rs k) ->
   latency_line (printed_summary rs k) = Some (0, 2 ^ 63 - 1, 0))
  /\ (requests (printed_summary rs k) <= 0 ->
      latency_line (printed_summary rs k) = None).
Proof.
  intros H.
  assert (G : forall n, sumNanos (collector_at rs n) = 0
                        /\ minLatency (collector_at rs n) = Int64.MaxInt64
                        /\ maxLatency (collector_at rs n) = 0).
  { intros n. unfold collector_at. apply (counts_only_keep_latencies _ stats0).
    pose proof (collector_ops_of_failures rs H) as F.
    rewrite <- (firstn_skipn n (collector_ops rs)) in F.
    apply Forall_app in F. tauto. }
  unfold printed_summary. cbn [requests latency_line].
  destruct (G (at_sum_test k)) as (-> & _ & _).
  destruct (G (at_min k)) as (_ & -> & _).
  destruct (G (at_max k)) as (_ & _ & ->).
  split; intros Hreq.
  - destruct (Z.ltb_spec 0 (total (collector_at rs (at_total k)))); [|lia].
    rewrite andb_false_r. reflexivity.
  - destruct (Z.ltb_spec 0 (total (collector_at rs (at_total k)))); [lia|].
    reflexivity.
Qed.

Lemma sentinels_at_any_read_witness :
  latency_line (printed_summary [result_B; result_B] (total_first 3))
  = Some (0, 2 ^ 63 - 1, 0).
Proof.
  assert (H : forall r, In r [result_B; result_B] -> Error r <> None).
  { intros r [<-|[<-|[]]]; discriminate. }
  destruct (sentinels_at_any_read [result_B; result_B] (total_first 3) H) as [Hline _].
  apply Hline. reflexivity.
Defined.

(** ** The retry policy *)

Lemma retry_terminal_spec r :
  retry_terminal r = true <-> Error r = None /\ (Status r = 0 \/ Status r < 500).
Proof.
  unfold retry_terminal.
  rewrite andb_true_iff, orb_true_iff, error_free_spec, Z.eqb_eq, Z.ltb_lt.
  reflexivity.
Qed.

Lemma retry_worthy_not_terminal r : retry_worthy r <-> retry_terminal r = false.
Proof.
  unfold retry_worthy. rewrite <- not_true_iff_false, retry_terminal_spec.
  destruct (Error r); split; intros H.
  - intros [E _]. discriminate.
  - left. discriminate.
  - intros [_ B]. destruct H as [H|H]; [congruence | lia].
  - right. destruct (Z_lt_le_dec (Status r) 500); [|assumption].
    exfalso. apply H. split; [reflexivity | right; assumption].
Qed.

(** What one attempt leaves in the run state, when it returns. *)
Lemma pingOnce_state w url s r s' :
  pingOnce w url s = (Some r, s') ->
  probes s' = probes s ++ [r]
  /\ timers s' = timers s
  /\ n_ctx s' = n_ctx s
  /\ n_rand s' = n_rand s
  /\ URL r = url
  /\ url_Parse w url = true.
Proof.
  unfold pingOnce, bind, now, do_request, log_probe, ret. simpl.
  destruct (url_Parse w url); [|discriminate]. simpl.
  destruct (client_Do w (n_http s) MethodHead url) as [resp [e|]]; simpl.
  - destruct (client_Do w (S (n_http s)) MethodGet url) as [resp' err']; simpl.
    intros H. inversion H; subst; clear H. simpl. repeat split.
  - intros H. inversion H; subst; clear H. simpl. repeat split.
Qed.


Lemma pingOnce_returns w url s :
  url_Parse w url = true -> exists r s', pingOnce w url s = (Some r, s').
Proof.
  intros Hp. unfold pingOnce, bind, now, do_request, log_probe, ret. simpl. rewrite Hp.
  simpl. destruct (client_Do w (n_http s) MethodHead url) as [resp [e|]]; simpl.
  - destruct (client_Do w (S (n_http s)) MethodGet url) as [resp' err']; simpl.
    eexists. eexists. reflexivity.
  - eexists. eexists. reflexivity.
Qed.

(** One turn of the loop whose attempt is not retried. *)
Lemma retry_loop_terminal fuel w url R attempt last s r s' :
  attempt <= R ->
  ctx_Done w (n_ctx s) = false ->
  pingOnce w url (snd (ctx_poll w s)) = (Some r, s') ->
  retry_terminal r = true ->
  retry_loop (S fuel) w url R attempt last s = (Some (Returned r), s').
Proof.
  intros Hle Hctx Hping Hterm. simpl retry_loop.
  destruct (Z.leb_spec attempt R); [|lia].
  unfold bind at 1. unfold ctx_poll at 1. rewrite Hctx.
  unfold bind at 1. unfold ctx_poll in Hping. simpl snd in Hping. rewrite Hping.
  rewrite Hterm. reflexivity.
Qed.

(** C1.  In any turn of the retry loop, an attempt that comes back with no
    error and a status in [400, 500) is returned at once: the loop makes
    no further attempt and arms no timer; and the collector counts that
    result in [failed], not in [success]. *)
Theorem C1_client_error_terminal_but_failed fuel w url R attempt last s st r s' :
  attempt <= R ->
  ctx_Done w (n_ctx s) = false ->
  pingOnce w url (snd (ctx_poll w s)) = (Some r, s') ->
  Error r = None ->
  400 <= Status r < 500 ->
  retry_loop (S fuel) w url R attempt last s = (Some (Returned r), s')
  /\ probes s' = probes s ++ [r]
  /\ timers s' = timers s
  /\ failed (collect_one st r) = Int64.add (failed st) 1
  /\ success (collect_one st r) = success st.
Proof.
  intros Hle Hctx Hping Herr Hst.
  assert (Hterm : retry_terminal r = true).
  { apply retry_terminal_spec. split; [assumption | right; lia]. }
  assert (Hnok : aggregate_ok r = false).
  { apply not_true_iff_false. rewrite aggregate_ok_spec. intros [_ [E|E]]; lia. }
  destruct (pingOnce_state _ _ _ _ _ Hping) as (Hp & Ht & _).
  split; [apply retry_loop_terminal; assumption|].
  split; [exact Hp|]. split; [exact Ht|].
  rewrite collect_one_failed, collect_one_success, Hnok. split; reflexivity.
Qed.

Lemma C1_client_error_terminal_but_failed_witness :
  let r := {| URL := "https://example.org"; Status := 430;
              Duration := 10000000; Error := None; When := 0 |} in
  fst (pingWithRetries 1 world_430 "https://example.org" 2 run0) = Some (Returned r)
  /\ List.length (probes (snd (pingWithRetries 1 world_430 "https://example.org" 2 run0)))
     = 1%nat
  /\ failed (collect_one stats0 r) = 1.
Proof.
  intros r.
  assert (H1 : 0 <= 2) by lia.
  assert (H2 : ctx_Done world_430 (n_ctx run0) = false) by reflexivity.
  assert (H3 : exists s', pingOnce world_430 "https://example.org"
                            (snd (ctx_poll world_430 run0)) = (Some r, s'))
    by (eexists; cbv; reflexivity).
  destruct H3 as (s' & H3).
  assert (H4 : Error r = None) by reflexivity.
  assert (H5 : 400 <= Status r < 500) by (simpl; lia).
  destruct (C1_client_error_terminal_but_failed 0 world_430 "https://example.org"
              2 0 zero_Result run0 stats0 r s' H1 H2 H3 H4 H5) as (Hr & Hp & _ & Hf & _).
  unfold pingWithRetries. rewrite Hr.
  split; [reflexivity|]. split; [cbn [snd]; rewrite Hp; reflexivity|].
  rewrite Hf. reflexivity.
Defined.

(** ** Line 90 *)

(** The typing on the examples of the language specification, for a
    variable [s]: [var i = 1<<s] and [int(1<<s)] are accepted, with [1] an
    [int]; [float64(1<<s)] and [var v float64 = 1<<s] are rejected, "1 has
    type float64, cannot shift"; the constant shift [float64(1<<3)] is
    accepted; so are [float64(100 * s)] and the shift on [int(1)]. *)
Example shift_typing_samples :
  GoExpr.typeof GoExpr.Tint (GoExpr.Shl (GoExpr.Const 1) GoExpr.Var) = Some GoExpr.Tint
  /\ GoExpr.typeof GoExpr.Tint
       (GoExpr.Conv GoExpr.Tint (GoExpr.Shl (GoExpr.Const 1) GoExpr.Var))
     = Some GoExpr.Tint
  /\ GoExpr.typeof GoExpr.Tint
       (GoExpr.Conv GoExpr.Tfloat64 (GoExpr.Shl (GoExpr.Const 1) GoExpr.Var))
     = None
  /\ GoExpr.typeof GoExpr.Tfloat64 (GoExpr.Shl (GoExpr.Const 1) GoExpr.Var) = None
  /\ GoExpr.typeof GoExpr.Tint
       (GoExpr.Conv GoExpr.Tfloat64 (GoExpr.Shl (GoExpr.Const 1) (GoExpr.Const 3)))
     = Some GoExpr.Tfloat64
  /\ GoExpr.typeof GoExpr.Tint
       (GoExpr.Conv GoExpr.Tfloat64 (GoExpr.Mul (GoExpr.Const 100) GoExpr.Var))
     = Some GoExpr.Tfloat64
  /\ GoExpr.typeof GoExpr.Tint line_90_on_int = Some GoExpr.Tfloat64.
Proof. repeat split. Qed.

(** The evaluation on accepted expressions: [float64(1<<3)] is 8,
    [float64(100 * s)] at [s = 7] is 700, the shift on [int(1)] at
    [s = 3] is 800, and panics at [s = -1]. *)
Example shift_evaluation_samples :
  GoExpr.run 0 0 (GoExpr.Conv GoExpr.Tfloat64 (GoExpr.Shl (GoExpr.Const 1) (GoExpr.Const 3)))
  = GoExpr.Value (GoExpr.VFloat (Float64.mk 8 0))
  /\ GoExpr.run 0 7 (GoExpr.Conv GoExpr.Tfloat64 (GoExpr.Mul (GoExpr.Const 100) GoExpr.Var))
     = GoExpr.Value (GoExpr.VFloat (Float64.mk 700 0))
  /\ GoExpr.run 0 3 line_90_on_int = GoExpr.Value (GoExpr.VFloat (Float64.mk 800 0))
  /\ GoExpr.run 0 (-1) line_90_on_int = GoExpr.Panics.
Proof. repeat split. Qed.

(** Line 90 as the source has it: the product [100 * (1 << attempt)]
    stands under [float64(...)], so [1] takes the type [float64], and the
    shift is rejected. *)
Lemma line_90_rejected : GoExpr.typeof GoExpr.Tint line_90 = None.
Proof. reflexivity. Qed.

Lemma backoff_base_rejected indefinite attempt :
  backoff_base indefinite attempt = GoExpr.Ill_typed.
Proof. reflexivity. Qed.

(** A turn of the loop whose attempt is a retry-worthy failure, with
    attempts remaining: the run reaches line 90. *)
Lemma retry_loop_reaches_line_90 fuel w url R attempt last s r s' :
  attempt < R ->
  ctx_Done w (n_ctx s) = false ->
  pingOnce w url (snd (ctx_poll w s)) = (Some r, s') ->
  retry_terminal r = false ->
  retry_loop (S fuel) w url R attempt last s = (Some Rejected, s').
Proof.
  intros Hlt Hctx Hping Hterm. simpl retry_loop.
  destruct (Z.leb_spec attempt R); [|lia].
  unfold bind at 1. unfold ctx_poll at 1. rewrite Hctx.
  unfold bind at 1. unfold ctx_poll in Hping. simpl snd in Hping. rewrite Hping.
  rewrite Hterm. destruct (Z.ltb_spec attempt R); [|lia]. reflexivity.
Qed.

(** [pingWithRetries], case by case: with the fuel for two tests of the
    loop condition, nothing is left to unfold. *)
Lemma pingWithRetries_cases fuel w url R s :
  pingWithRetries (S (S fuel)) w url R s
  = if R <? 0 then (Some (Returned zero_Result), s)
    else if ctx_Done w (n_ctx s)
         then (r <- cancelled w url ;; ret (Some (Returned r))) (snd (ctx_poll w s))
         else match pingOnce w url (snd (ctx_poll w s)) with
              | (None, s1) => (Some Panicked, s1)
              | (Some r, s1) =>
                if retry_terminal r then (Some (Returned r), s1)
                else if 0 <? R then (Some Rejected, s1)
                     else (Some (Returned r), s1)
              end.
Proof.
  unfold pingWithRetries. simpl retry_loop.
  destruct (Z.leb_spec 0 R) as [H0|H0]; destruct (Z.ltb_spec R 0); try lia;
    [|reflexivity].
  unfold bind at 1. unfold ctx_poll at 1.
  destruct (ctx_Done w (n_ctx s)); [reflexivity|].
  unfold bind at 1. unfold ctx_poll. simpl snd.
  destruct (pingOnce w url _) as [[r|] s1]; [|reflexivity].
  destruct (retry_terminal r); [reflexivity|].
  destruct (Z.ltb_spec 0 R); [reflexivity|].
  assert (R = 0) by lia. subst R. reflexivity.
Qed.


(** C2: what the code does.  When the first attempt is a retry-worthy
    failure and the context is not cancelled, a budget of 0 returns that
    one attempt; any budget of 1 or more makes the same single attempt
    and then reaches line 90, which the compiler rejects: no timer is
    armed and no second attempt is made, against the [R + 1] attempts of
    the claim. *)
Theorem C2_one_attempt_then_line_90 w url R fuel s r s' :
  0 <= R ->
  ctx_Done w (n_ctx s) = false ->
  pingOnce w url (snd (ctx_poll w s)) = (Some r, s') ->
  retry_worthy r ->
  (2 <= fuel)%nat ->
  probes s' = probes s ++ [r]
  /\ timers s' = timers s
  /\ (R = 0 -> pingWithRetries fuel w url R s = (Some (Returned r), s'))
  /\ (1 <= R ->
      pingWithRetries fuel w url R s = (Some Rejected, s')
      /\ Z.of_nat (List.length (probes s')) - Z.of_nat (List.length (probes s)) <> R + 1).
Proof.
  intros HR Hctx Hping Hw Hfuel.
  destruct fuel as [|[|fuel]]; [lia | lia |].
  apply retry_worthy_not_terminal in Hw.
  destruct (pingOnce_state _ _ _ _ _ Hping) as (Hp & Ht & _).
  split; [exact Hp|]. split; [exact Ht|].
  rewrite pingWithRetries_cases, Hctx, Hping, Hw.
  destruct (Z.ltb_spec R 0); [lia|].
  split.
  - intros ->. reflexivity.
  - intros H1. destruct (Z.ltb_spec 0 R); [|lia]. split; [reflexivity|].
    rewrite Hp, length_app. simpl List.length. lia.
Qed.

Lemma world_down_first_attempt url :
  exists r s',
    pingOnce world_down url (snd (ctx_poll world_down run0)) = (Some r, s')
    /\ retry_worthy r.
Proof. eexists. eexists. split; [cbv; reflexivity|]. left. discriminate. Qed.

(** At the failing input, a budget of 2 and a URL that is always refused:
    one attempt, then line 90. *)
Lemma C2_one_attempt_then_line_90_witness :
  exists s',
    pingWithRetries 4 world_down "https://example.org" 2 run0 = (Some Rejected, s')
    /\ List.length (probes s') = 1%nat
    /\ timers s' = [].
Proof.
  destruct (world_down_first_attempt "https://example.org") as (r & s' & Hping & Hw).
  assert (H0 : 0 <= 2) by lia.
  assert (Hfuel : (2 <= 4)%nat) by lia.
  destruct (C2_one_attempt_then_line_90 world_down "https://example.org" 2 4 run0 r s'
              H0 eq_refl Hping Hw Hfuel) as (Hp & Ht & _ & H1).
  destruct H1 as [Hrun _]; [lia|].
  exists s'. split; [exact Hrun|]. rewrite Hp, Ht. split; reflexivity.
Defined.

(** ** The backoff arithmetic *)

Lemma bits_spec a : 0 < a -> 2 ^ (Float64.bits a - 1) <= a < 2 ^ Float64.bits a.
Proof.
  intros H. unfold Float64.bits. destruct (Z.eqb_spec a 0); [lia|].
  replace (Z.log2 a + 1 - 1) with (Z.log2 a) by lia.
  replace (Z.log2 a + 1) with (Z.succ (Z.log2 a)) by lia.
  apply Z.log2_spec. assumption.
Qed.

Lemma round_nearest_even_lower a k c :
  0 < k -> c * 2 ^ k <= a -> c <= Float64.round_nearest_even a k.
Proof.
  intros Hk Hc. unfold Float64.round_nearest_even.
  assert (0 < 2 ^ k) by (apply Z.pow_pos_nonneg; lia).
  assert (c <= a / 2 ^ k) by (apply Z.div_le_lower_bound; lia).
  destruct (_ <? _); [lia|]. destruct (_ <? _); [lia|]. destruct (Z.even _); lia.
Qed.

Lemma round_nearest_even_upper a k c :
  0 < k -> a <= c * 2 ^ k -> Float64.round_nearest_even a k <= c.
Proof.
  intros Hk Hc. unfold Float64.round_nearest_even.
  assert (P : 0 < 2 ^ k) by (apply Z.pow_pos_nonneg; lia).
  assert (Q : 0 < 2 ^ (k - 1)) by (apply Z.pow_pos_nonneg; lia).
  destruct (Z.eq_dec a (c * 2 ^ k)) as [->|Hne].
  - rewrite Z_mod_mult, Z_div_mult by lia.
    destruct (Z.ltb_spec 0 (2 ^ (k - 1))); lia.
  - assert (a / 2 ^ k < c) by (apply Z.div_lt_upper_bound; lia).
    destruct (_ <? _); [lia|]. destruct (_ <? _); [lia|]. destruct (Z.even _); lia.
Qed.

(** Rounding keeps a value between two integers below 2^53 that bracket it. *)
Lemma normalize_between m e lo hi :
  e <= 0 -> 0 <= lo -> hi < 2 ^ 53 ->
  lo * 2 ^ (- e) <= m <= hi * 2 ^ (- e) ->
  let x := Float64.normalize m e in
  Float64.expo x <= 0
  /\ lo * 2 ^ (- Float64.expo x) <= Float64.mant x <= hi * 2 ^ (- Float64.expo x).
Proof.
  intros He Hlo Hhi Hm x. subst x. unfold Float64.normalize, Float64.precision.
  assert (P : 0 < 2 ^ (- e)) by (apply Z.pow_pos_nonneg; lia).
  assert (0 <= m) by nia.
  rewrite Z.abs_eq by assumption.
  destruct (Z.leb_spec (Float64.bits m) 53) as [Hb|Hb]; simpl; [lia|].
  assert (Hpos : 0 < m).
  { destruct (Z.eq_dec m 0) as [->|]; [|lia]. unfold Float64.bits in Hb. simpl in Hb. lia. }
  destruct (bits_spec m Hpos) as [Hlow _].
  set (k := Float64.bits m - 53) in *.
  assert (Hk : 0 < k) by lia.
  (* the magnitude bound keeps the rounding step at or below one *)
  assert (Hek : e + k <= 0).
  { destruct (Z_le_gt_dec (e + k) 0); [assumption|exfalso].
    assert (2 ^ (53 - e) <= 2 ^ (Float64.bits m - 1)) by (apply Z.pow_le_mono_r; lia).
    assert (hi * 2 ^ (- e) < 2 ^ 53 * 2 ^ (- e)) by (apply Z.mul_lt_mono_pos_r; lia).
    rewrite <- Z.pow_add_r in H1 by lia.
    replace (53 + - e) with (53 - e) in H1 by lia.
    lia. }
  rewrite Z.sgn_pos, Z.mul_1_l by assumption.
  split; [lia|].
  assert (Hsplit : 2 ^ (- e) = 2 ^ (- (e + k)) * 2 ^ k).
  { rewrite <- Z.pow_add_r by lia. f_equal. lia. }
  rewrite Hsplit in Hm.
  split.
  - apply round_nearest_even_lower; [assumption | lia].
  - apply round_nearest_even_upper; [assumption | lia].
Qed.

Lemma pow2_le_35 a : 0 <= a <= 35 -> 1 <= 2 ^ a <= 34359738368.
Proof.
  intros H. change 34359738368 with (2 ^ 35). split.
  - change 1 with (2 ^ 0). apply Z.pow_le_mono_r; lia.
  - apply Z.pow_le_mono_r; lia.
Qed.

Lemma unit_interval_expo r : Float64.unit_interval r -> Float64.expo r <= 0.
Proof.
  intros [[H0 _] H1]. destruct (Z_le_gt_dec (Float64.expo r) 0); [assumption|].
  rewrite Z.pow_neg_r in H1 by lia. lia.
Qed.

(** Lines 91 and 92 taken alone, [jitter := rand.Float64() * base] and
    [sleep := time.Duration(base+jitter) * time.Millisecond], for a base
    of [100 * 2^a] with [0 <= a <= 35]: a whole number of milliseconds
    between the base and twice the base, both included.  No run gets
    there, since line 90 gives them no base. *)
Lemma backoff_sleep_bounds indefinite a r :
  0 <= a <= 35 ->
  Float64.unit_interval r ->
  let base := Float64.mk (100 * 2 ^ a) 0 in
  let ms := Float64.trunc (Float64.add base (Float64.mul r base)) in
  backoff_sleep indefinite base r = ms * Millisecond
  /\ 100 * 2 ^ a <= ms <= 200 * 2 ^ a.
Proof.
  intros Ha Hr base ms. pose proof (pow2_le_35 a Ha) as P.
  pose proof (unit_interval_expo r Hr) as He. destruct Hr as [[Hm0 _] Hm1].
  set (B := 100 * 2 ^ a) in *.
  assert (HB : 100 <= B <= 3435973836800) by (unfold B; lia).
  (* the jitter lies between 0 and the base *)
  assert (Hj : let j := Float64.mul r base in
               Float64.expo j <= 0
               /\ 0 * 2 ^ (- Float64.expo j) <= Float64.mant j <= B * 2 ^ (- Float64.expo j)).
  { unfold Float64.mul, base. simpl Float64.mant. simpl Float64.expo.
    apply normalize_between.
    - lia.
    - lia.
    - change (2 ^ 53) with 9007199254740992. lia.
    - replace (- (Float64.expo r + 0)) with (- Float64.expo r) by lia.
      assert (0 < 2 ^ (- Float64.expo r)) by (apply Z.pow_pos_nonneg; lia). nia. }
  cbv zeta in Hj. destruct Hj as (Hje & Hj0 & Hj1).
  (* so the sum lies between the base and twice the base *)
  assert (Hs : let x := Float64.add base (Float64.mul r base) in
               Float64.expo x <= 0
               /\ B * 2 ^ (- Float64.expo x) <= Float64.mant x
                  <= (2 * B) * 2 ^ (- Float64.expo x)).
  { unfold Float64.add. set (j := Float64.mul r base) in *.
    unfold base at 1 2 3. simpl Float64.mant. simpl Float64.expo.
    rewrite Z.min_r by lia.
    rewrite Z.sub_diag, Z.pow_0_r, Z.mul_1_r.
    apply normalize_between.
    - lia.
    - lia.
    - change (2 ^ 53) with 9007199254740992. lia.
    - lia. }
  assert (Hms : B <= ms <= 2 * B).
  { cbv zeta in Hs. destruct Hs as (Hse & Hs0 & Hs1). unfold ms, Float64.trunc.
    set (x := Float64.add base (Float64.mul r base)) in *.
    destruct (Z.leb_spec 0 (Float64.expo x)).
    - replace (Float64.expo x) with 0 in * by lia. simpl in *. lia.
    - assert (0 < 2 ^ (- Float64.expo x)) by (apply Z.pow_pos_nonneg; lia).
      rewrite Z.quot_div_nonneg by nia. split.
      + apply Z.div_le_lower_bound; lia.
      + apply Z.div_le_upper_bound; lia. }
  split; [|unfold B in *; lia].
  unfold backoff_sleep, Float64.to_int64, Int64.mul, Millisecond. fold ms.
  destruct (Z.leb_spec Int64.MinInt64 ms), (Z.leb_spec ms Int64.MaxInt64);
    unfold Int64.MinInt64, Int64.MaxInt64 in *; try lia.
  simpl. apply wrap_in_range.
  unfold Int64.in_range, Int64.MinInt64, Int64.MaxInt64. lia.
Qed.

(** The model and the hardware agree where the rounding matters: at the
    jitter just below 1, the product rounds below the base and the sum
    rounds up to twice the base. *)
Example float64_model_matches_hardware :
  Float64.to_prim (Float64.mul jitter_below_1 (Float64.mk 100 0))
  = PrimFloat.mul (Float64.to_prim jitter_below_1) (Float64.to_prim (Float64.mk 100 0))
  /\ Float64.to_prim (Float64.add (Float64.mk 100 0)
                        (Float64.mul jitter_below_1 (Float64.mk 100 0)))
     = PrimFloat.add (Float64.to_prim (Float64.mk 100 0))
         (PrimFloat.mul (Float64.to_prim jitter_below_1) (Float64.to_prim (Float64.mk 100 0)))
  /\ Float64.to_prim (Float64.add (Float64.mk 100 0)
                        (Float64.mul jitter_below_1 (Float64.mk 100 0)))
     = Float64.to_prim (Float64.mk 200 0).
Proof. vm_compute. repeat split. Qed.

Example float64_model_matches_hardware_on_samples :
  forallb (fun r => forallb (agrees_with_hardware r) sample_bases) sample_jitters = true.
Proof. vm_compute. reflexivity. Qed.

(** C9: what the code does.  Line 90, which is to compute the base of
    the backoff, is rejected by the compiler whatever the attempt; a turn
    of the loop whose attempt is a retry-worthy failure, with attempts
    remaining, ends there: no jitter is drawn and no timer is armed, so
    there is no delay to lie in any interval. *)
Theorem C9_backoff_base_is_rejected :
  GoExpr.typeof GoExpr.Tint line_90 = None
  /\ (forall indefinite a, backoff_base indefinite a = GoExpr.Ill_typed)
  /\ (forall fuel w url R a last s r s',
        a < R ->
        ctx_Done w (n_ctx s) = false ->
        pingOnce w url (snd (ctx_poll w s)) = (Some r, s') ->
        retry_worthy r ->
        retry_loop (S fuel) w url R a last s = (Some Rejected, s')
        /\ timers s' = timers s
        /\ n_rand s' = n_rand s).
Proof.
  split; [reflexivity|]. split; [reflexivity|].
  intros fuel w url R a last s r s' Ha Hctx Hping Hw.
  apply retry_worthy_not_terminal in Hw.
  destruct (pingOnce_state _ _ _ _ _ Hping) as (_ & Ht & _ & Hn & _).
  split; [apply (retry_loop_reaches_line_90 fuel w url R a last s r s'); assumption|].
  split; assumption.
Qed.

(** At the failing input, the first backoff of a budget of 1. *)
Lemma C9_backoff_base_is_rejected_witness :
  exists s',
    retry_loop 1 (world_jitter jitter_1_256) "https://example.org" 1 0 zero_Result run0
    = (Some Rejected, s')
    /\ timers s' = []
    /\ n_rand s' = 0%nat.
Proof.
  destruct C9_backoff_base_is_rejected as (_ & _ & H).
  assert (Hping : exists r s',
             pingOnce (world_jitter jitter_1_256) "https://example.org"
               (snd (ctx_poll (world_jitter jitter_1_256) run0)) = (Some r, s')
             /\ retry_worthy r).
  { eexists. eexists. split; [cbv; reflexivity|]. left. discriminate. }
  destruct Hping as (r & s' & Hping & Hw).
  assert (H01 : 0 < 1) by lia.
  destruct (H 0%nat (world_jitter jitter_1_256) "https://example.org"%string 1 0 zero_Result
              run0 r s' H01 eq_refl Hping Hw) as (Hrun & Ht & Hn).
  exists s'. split; [exact Hrun|]. split; [exact Ht | exact Hn].
Defined.

(** ** The worker *)

Lemma retry_loop_cancelled fuel w url R last s :
  0 <= R ->
  ctx_Done w (n_ctx s) = true ->
  fst (retry_loop (S fuel) w url R 0 last s)
  = Some (Returned {| URL := url; Status := 0; Duration := 0;
                      Error := Some context_Canceled;
                      When := time_Now w (n_clock s) |})
  /\ probes (snd (retry_loop (S fuel) w url R 0 last s)) = probes s.
Proof.
  intros HR Hctx.
  assert (E : retry_loop (S fuel) w url R 0 last s
              = (r <- cancelled w url ;; ret (Some (Returned r))) (snd (ctx_poll w s))).
  { simpl retry_loop. destruct (Z.leb_spec 0 R); [|lia].
    unfold bind at 1. unfold ctx_poll at 1. rewrite Hctx. reflexivity. }
  rewrite E. split; reflexivity.
Qed.

(** Each step moves the worker forward and emits at most one event, the
    one that stands between the two positions. *)
Lemma worker_step_ranks cfg url p sh pc sh' pc' evs :
  worker_step cfg url p sh pc = Some (sh', pc', evs) ->
  (pc_rank pc < pc_rank pc')%nat
  /\ (evs = [] \/ exists e, evs = [e] /\ (pc_rank pc <= code_rank e < pc_rank pc')%nat).
Proof.
  destruct pc; simpl; intros H.
  - destruct (_ <? _); [|discriminate]. injection H as <- <- <-.
    destruct (0 <? rate cfg); simpl; split; try lia; right; eexists; split;
      try reflexivity; simpl; lia.
  - destruct (ctx_done sh), (tokens sh); try destruct (prefer_done p);
      try discriminate; injection H as <- <- <-; simpl; split; try lia; auto;
      right; eexists; split; try reflexivity; simpl; lia.
  - destruct (pingWithRetries _ _ _ _ _) as [[[res| |]|] s]; try discriminate;
      injection H as <- <- <-; simpl; split; try lia; auto.
    right; eexists; split; try reflexivity; simpl; lia.
  - destruct (ctx_done sh), (_ <? _)%nat; try destruct (prefer_done p);
      try discriminate; injection H as <- <- <-; simpl; split; try lia; auto;
      right; eexists; split; try reflexivity; simpl; lia.
  - destruct (sem sh); [discriminate|]. injection H as <- <- <-. simpl.
    split; [lia|]. right; eexists; split; try reflexivity; simpl; lia.
  - discriminate.
  - destruct (sem sh); [discriminate|]. injection H as <- <- <-. simpl.
    split; [lia|]. right; eexists; split; try reflexivity; simpl; lia.
  - discriminate.
Qed.

Lemma worker_run_ranks cfg url sched :
  forall pc pc' evs,
    worker_run cfg url sched pc = Some (pc', evs) ->
    (pc_rank pc <= pc_rank pc')%nat
    /\ StronglySorted lt (map code_rank evs)
    /\ Forall (fun e => (pc_rank pc <= code_rank e)%nat) evs.
Proof.
  induction sched as [|[sh p] rest IH]; intros pc pc' evs H; simpl in H.
  - injection H as <- <-. repeat split; [lia | constructor | constructor].
  - destruct (worker_step cfg url p sh pc) as [[[sh1 pc1] ev1]|] eqn:Hstep; [|discriminate].
    destruct (worker_run cfg url rest pc1) as [[pc2 ev2]|] eqn:Hrun; [|discriminate].
    injection H as <- <-.
    destruct (worker_step_ranks _ _ _ _ _ _ _ _ Hstep) as [Hlt Hev].
    destruct (IH _ _ _ Hrun) as (Hle & Hsorted & Hall).
    split; [lia|].
    destruct Hev as [->|(e & -> & He)]; simpl.
    + split; [assumption|]. eapply Forall_impl; [|exact Hall]. simpl. intros; lia.
    + split.
      * constructor; [assumption|]. apply Forall_map.
        eapply Forall_impl; [|exact Hall]. simpl. intros; lia.
      * constructor; [lia|]. eapply Forall_impl; [|exact Hall]. simpl. intros; lia.
Qed.

Lemma sorted_ranks_one_submission evs :
  StronglySorted lt (map code_rank evs) -> (submissions evs <= 1)%nat.
Proof.
  unfold submissions. induction evs as [|e evs IH]; simpl; intros H; [lia|].
  apply StronglySorted_inv in H. destruct H as [Hs Hall].
  specialize (IH Hs). destruct e; simpl; try lia.
  (* after a submission, nothing of rank 3 is left *)
  assert (Z : filter is_submit evs = []).
  { clear IH Hs. induction evs as [|x evs IHx]; [reflexivity|].
    simpl in Hall. apply Forall_cons_iff in Hall. destruct Hall as [Hx Hall].
    simpl. destruct x; simpl in *; try lia; auto. }
  rewrite Z. simpl. lia.
Qed.

Lemma worker_run_submits_retry_result cfg url sched :
  forall pc pc' evs res,
    worker_run cfg url sched pc = Some (pc', evs) ->
    In (EvSubmit res) evs ->
    pc = AtSubmit res \/ In (EvRetryPolicy res) evs.
Proof.
  induction sched as [|[sh p] rest IH]; intros pc pc' evs res H Hin; simpl in H.
  - injection H as <- <-. destruct Hin.
  - destruct (worker_step cfg url p sh pc) as [[[sh1 pc1] ev1]|] eqn:Hstep; [|discriminate].
    destruct (worker_run cfg url rest pc1) as [[pc2 ev2]|] eqn:Hrun; [|discriminate].
    injection H as <- <-. apply in_app_or in Hin. destruct Hin as [Hin|Hin].
    + (* the submission is this step's *)
      left. destruct pc; simpl in Hstep.
      * destruct (_ <? _); [|discriminate]. injection Hstep as <- <- <-.
        destruct Hin as [E|[]]; discriminate.
      * destruct (ctx_done sh), (tokens sh); try destruct (prefer_done p);
          try discriminate; injection Hstep as <- <- <-;
          simpl in Hin; intuition discriminate.
      * destruct (pingWithRetries _ _ _ _ _) as [[[r| |]|] s]; try discriminate;
          injection Hstep as <- <- <-; simpl in Hin; intuition discriminate.
      * destruct (ctx_done sh), (_ <? _)%nat; try destruct (prefer_done p);
          try discriminate; injection Hstep as <- <- <-;
          simpl in Hin; intuition congruence.
      * destruct (sem sh); [discriminate|]. injection Hstep as <- <- <-.
        simpl in Hin; intuition discriminate.
      * discriminate.
      * destruct (sem sh); [discriminate|]. injection Hstep as <- <- <-.
        simpl in Hin; intuition discriminate.
      * discriminate.
    + (* it comes later *)
      right. apply in_or_app.
      destruct (IH _ _ _ _ Hrun Hin) as [->|Hlater]; [|right; assumption].
      left. destruct pc; simpl in Hstep.
      * destruct (_ <? _); [|discriminate]. injection Hstep as <- Hpc <-.
        destruct (0 <? rate cfg); discriminate.
      * destruct (ctx_done sh), (tokens sh); try destruct (prefer_done p);
          try discriminate; injection Hstep as <- Hpc <-; discriminate.
      * destruct (pingWithRetries _ _ _ _ _) as [[[r| |]|] s]; try discriminate;
          injection Hstep as <- Hpc <-; try discriminate.
        subst r. simpl. tauto.
      * destruct (ctx_done sh), (_ <? _)%nat; try destruct (prefer_done p);
          try discriminate; injection Hstep as <- Hpc <-; discriminate.
      * destruct (sem sh); [discriminate|]. injection Hstep as <- Hpc <-. discriminate.
      * discriminate.
      * destruct (sem sh); [discriminate|]. injection Hstep as <- Hpc <-. discriminate.
      * discriminate.
Qed.



(** A run that ends at [AtDone] without taking the cancelled case of a
    [select] goes through every remaining step of the body, whether or
    not the context was cancelled meanwhile. *)
Lemma worker_run_complete cfg url sched :
  forall pc evs,
    worker_run cfg url sched pc = Some (AtDone, evs) ->
    observes_cancellation cfg url sched pc = false ->
    remaining cfg pc evs.
Proof.
  induction sched as [|[sh p] rest IH]; intros pc evs H Hobs; simpl in H, Hobs.
  - injection H as -> <-. reflexivity.
  - destruct (worker_step cfg url p sh pc) as [[[sh1 pc1] ev1]|] eqn:Hstep; [|discriminate].
    destruct (worker_run cfg url rest pc1) as [[pc2 ev2]|] eqn:Hrun; [|discriminate].
    injection H as Hpc Hevs. subst pc2 evs.
    apply orb_false_iff in Hobs. destruct Hobs as [Htook Hobs].
    specialize (IH _ _ Hrun Hobs).
    destruct pc; simpl in Hstep.
    + destruct (_ <? _); [|discriminate]. injection Hstep as <- <- <-.
      unfold remaining at 1.
      destruct (0 <? rate cfg); simpl in IH |- *; destruct IH as [res ->];
        exists res; reflexivity.
    + destruct (ctx_done sh), (tokens sh); try destruct (prefer_done p);
        try discriminate; injection Hstep as <- <- <-; try discriminate Htook;
        simpl in IH |- *; destruct IH as [res ->]; exists res; reflexivity.
    + destruct (pingWithRetries _ _ _ _ _) as [[[r| |]|] s]; try discriminate;
        injection Hstep as <- <- <-; simpl in IH |- *.
      * subst ev2. exists r. reflexivity.
      * destruct IH.
    + destruct (ctx_done sh), (_ <? _)%nat; try destruct (prefer_done p);
        try discriminate; injection Hstep as <- <- <-; try discriminate Htook;
        simpl in IH |- *; subst ev2; reflexivity.
    + destruct (sem sh); [discriminate|]. injection Hstep as <- <- <-.
      simpl in IH |- *. subst ev2. reflexivity.
    + discriminate.
    + destruct (sem sh); [discriminate|]. injection Hstep as <- <- <-.
      simpl in IH. destruct IH.
    + discriminate.
Qed.

(** From the release on, a worker neither runs the retry policy nor
    submits. *)
Lemma worker_run_from_release cfg url sched :
  forall pc evs,
    worker_run cfg url sched AtRelease = Some (pc, evs) ->
    (pc = AtRelease /\ evs = []) \/ (pc = AtDone /\ evs = [EvReleasePermit]).
Proof.
  destruct sched as [|[sh p] rest]; intros pc evs H; simpl in H.
  - injection H as <- <-. left. split; reflexivity.
  - destruct (sem sh); [discriminate|].
    destruct rest as [|[sh2 p2] rest]; simpl in H; [|discriminate].
    injection H as <- <-. right. split; reflexivity.
Qed.

(** C3, as amended.  A worker submits at most one result, and what it
    submits is what the retry policy returned to it.  A worker that
    finishes without observing the cancellation at its token wait or at
    its submission submits exactly one, also when the context is
    cancelled at another moment.  A worker that observes the cancellation
    while it waits for a rate token goes on to its release: it never runs
    the retry policy and submits nothing.  When the context is already
    cancelled as the retry policy starts, the policy returns an error
    result that carries [context.Canceled], no status and no duration;
    that result, like any other, is submitted under a cancelled context
    only if the final [select] of the worker takes its send case. *)
Theorem C3_at_most_one_result cfg url :
  (forall sched pc evs,
      worker_run cfg url sched AtAcquire = Some (pc, evs) ->
      (submissions evs <= 1)%nat
      /\ forall res, In (EvSubmit res) evs -> In (EvRetryPolicy res) evs)
  /\ (forall sched evs,
        worker_run cfg url sched AtAcquire = Some (AtDone, evs) ->
        observes_cancellation cfg url sched AtAcquire = false ->
        submissions evs = 1%nat)
  /\ (forall sh0 p0 sh p rest pc evs,
        0 < rate cfg ->
        worker_run cfg url ((sh0, p0) :: (sh, p) :: rest) AtAcquire = Some (pc, evs) ->
        ctx_done sh = true ->
        tokens sh = 0%nat \/ prefer_done p = true ->
        (evs = [EvAcquirePermit] \/ evs = [EvAcquirePermit; EvReleasePermit])
        /\ submissions evs = 0%nat
        /\ forall res, ~ In (EvRetryPolicy res) evs)
  /\ (forall sh p sh' pc' evs,
        0 <= retries cfg ->
        ctx_done sh = true ->
        worker_step cfg url p sh AtPing = Some (sh', pc', evs) ->
        exists t,
          pc' = AtSubmit {| URL := url; Status := 0; Duration := 0;
                            Error := Some context_Canceled; When := t |})
  /\ (forall sh p res sh' pc' evs,
        worker_step cfg url p sh (AtSubmit res) = Some (sh', pc', evs) ->
        pc' = AtRelease
        /\ (evs = [EvSubmit res] \/ evs = [])
        /\ (ctx_done sh = false -> evs = [EvSubmit res])
        /\ (ctx_done sh = true ->
            (evs = [EvSubmit res]
             <-> prefer_done p = false
                 /\ (List.length (results sh) < results_capacity)%nat))).
Proof.
  split; [|split; [|split; [|split]]].
  - intros sched pc evs Hrun.
    destruct (worker_run_ranks _ _ _ _ _ _ Hrun) as (_ & Hsorted & _).
    split; [apply sorted_ranks_one_submission; assumption|].
    intros res Hin.
    destruct (worker_run_submits_retry_result _ _ _ _ _ _ _ Hrun Hin) as [E|H];
      [discriminate | assumption].
  - intros sched evs Hrun Hobs.
    pose proof (worker_run_complete _ _ _ _ _ Hrun Hobs) as [res ->].
    unfold submissions. destruct (0 <? rate cfg); reflexivity.
  - intros sh0 p0 sh p rest pc evs Hrate Hrun Hdone Hsel.
    simpl in Hrun.
    destruct (Z.of_nat (sem sh0) <? concurrency cfg); [|discriminate].
    destruct (Z.ltb_spec 0 (rate cfg)); [|lia].
    simpl in Hrun. rewrite Hdone in Hrun.
    assert (Hstep : match tokens sh with
                    | O => Some (sh, AtRelease, [])
                    | S n => if prefer_done p then Some (sh, AtRelease, @nil Event)
                             else Some (set_tokens sh n, AtPing, [EvAcquireToken])
                    end = Some (sh, AtRelease, [])).
    { destruct Hsel as [->| ->]; [reflexivity|]. destruct (tokens sh); reflexivity. }
    rewrite Hstep in Hrun.
    destruct (worker_run cfg url rest AtRelease) as [[pc2 ev2]|] eqn:Hrest; [|discriminate].
    injection Hrun as <- <-.
    destruct (worker_run_from_release _ _ _ _ _ Hrest) as [[_ ->]|[_ ->]]; simpl.
    + split; [left; reflexivity|]. split; [reflexivity|].
      intros res [E|[]]; discriminate E.
    + split; [right; reflexivity|]. split; [reflexivity|].
      intros res [E|[E|[]]]; discriminate E.
  - intros sh p sh' pc' evs HR Hdone Hstep. simpl in Hstep.
    unfold pingWithRetries in Hstep. destruct (fuel p) as [|f].
    + simpl in Hstep. discriminate.
    + destruct (retry_loop_cancelled f (under_ctx (ctx_done sh) (world p)) url
                  (retries cfg) zero_Result run0 HR) as [Hres _].
      { simpl. rewrite Hdone. reflexivity. }
      destruct (retry_loop (S f) _ _ _ _ _ _) as [o s]. simpl in Hres. subst o.
      injection Hstep as _ <- _. eexists. reflexivity.
  - intros sh p res sh' pc' evs Hstep. simpl in Hstep.
    destruct (ctx_done sh);
      destruct (Nat.ltb_spec (List.length (results sh)) results_capacity);
      try destruct (prefer_done p); try discriminate Hstep;
      injection Hstep as <- <- <-;
      (split; [reflexivity|]); (split; [auto|]);
      (split; [intros E; first [reflexivity | discriminate E]|]);
      intros E; try discriminate E;
      (split; [intros E2; first [discriminate E2 | split; [reflexivity | assumption]]
              |intros [E2 E3]; first [reflexivity | discriminate E2 | lia]]).
Qed.


(** Two workers that finish and submit exactly once: one undisturbed, one
    whose context is cancelled after its submission. *)
Lemma C3_at_most_one_result_witness :
  worker_run cfg_rate_limited "A" sched_undisturbed AtAcquire
  = Some (AtDone, [EvAcquirePermit; EvAcquireToken; EvRetryPolicy result_200;
                   EvSubmit result_200; EvReleasePermit])
  /\ worker_run cfg_rate_limited "A" sched_cancelled_at_release AtAcquire
     = Some (AtDone, [EvAcquirePermit; EvAcquireToken; EvRetryPolicy result_200;
                      EvSubmit result_200; EvReleasePermit])
  /\ ~ never_cancelled sched_cancelled_at_release
  /\ submissions [EvAcquirePermit; EvAcquireToken; EvRetryPolicy result_200;
                  EvSubmit result_200; EvReleasePermit] = 1%nat.
Proof.
  assert (Hrun : worker_run cfg_rate_limited "A" sched_cancelled_at_release AtAcquire
                 = Some (AtDone, [EvAcquirePermit; EvAcquireToken; EvRetryPolicy result_200;
                                  EvSubmit result_200; EvReleasePermit]))
    by reflexivity.
  split; [reflexivity|]. split; [exact Hrun|]. split.
  - intros H. unfold never_cancelled, sched_cancelled_at_release in H.
    do 4 (apply Forall_cons_iff in H; destruct H as [_ H]).
    apply Forall_cons_iff in H. destruct H as [H _]. discriminate H.
  - destruct (C3_at_most_one_result cfg_rate_limited "A") as (_ & Hone & _).
    exact (Hone _ _ Hrun eq_refl).
Defined.

(** C3 as stated fails.  A worker that finds the context cancelled while
    it waits for a rate token finishes without any submission; and a
    worker to which the retry policy returned the cancellation result
    finishes without submitting it when its final [select] takes the
    cancelled case. *)
Lemma C3_counterexample :
  worker_run cfg_rate_limited "A" sched_cancelled_at_token AtAcquire
  = Some (AtDone, [EvAcquirePermit; EvReleasePermit])
  /\ submissions [EvAcquirePermit; EvReleasePermit] = 0%nat
  /\ worker_run cfg_unlimited "A" sched_cancelled_at_submit AtAcquire
     = Some (AtDone, [EvAcquirePermit; EvRetryPolicy result_cancelled; EvReleasePermit])
  /\ submissions [EvAcquirePermit; EvRetryPolicy result_cancelled; EvReleasePermit] = 0%nat.
Proof. repeat split. Qed.




(** C6: what the code does.  With every permit taken, a worker at
    [sem <- struct{}{}] has no step to take, whether or not the context
    is cancelled: the send is not one case of a [select] on
    [ctx.Done()]. *)
Theorem C6_permit_wait_ignores_cancellation cfg url p sh :
  concurrency cfg <= Z.of_nat (sem sh) ->
  worker_step cfg url p sh AtAcquire = None.
Proof.
  intros H. simpl. destruct (Z.ltb_spec (Z.of_nat (sem sh)) (concurrency cfg)); [lia|].
  reflexivity.
Qed.

(** At the failing input: cancelled, the only permit held by another
    worker.  The token wait and the submission both resolve for the
    cancellation; the permit acquisition stays blocked, and proceeds only
    once the other worker has given its permit back. *)
Lemma C6_permit_wait_ignores_cancellation_witness :
  ctx_done shared_cancelled = true
  /\ worker_step cfg_rate_limited "B" pick_send shared_cancelled AtAcquire = None
  /\ worker_step cfg_rate_limited "B" pick_send shared_cancelled AtTokenWait
     = Some (shared_cancelled, AtRelease, [])
  /\ worker_step cfg_rate_limited "B" pick_done shared_cancelled (AtSubmit result_200)
     = Some (shared_cancelled, AtRelease, [])
  /\ worker_step cfg_rate_limited "B" pick_send (set_sem shared_cancelled 0) AtAcquire
     = Some (shared_cancelled, AtTokenWait, [EvAcquirePermit]).
Proof.
  split; [reflexivity|]. split; [|repeat split].
  apply (C6_permit_wait_ignores_cancellation cfg_rate_limited "B" pick_send shared_cancelled).
  simpl. lia.
Defined.

(* ================================================================= *)
(** ** The URL file *)

Section URLFile.
Local Open Scope string_scope.

Lemma trim_right_cons c r :
  trim_right (String c r)
  = if is_space_rune (String c (trim_right r)) then "" else String c (trim_right r).
Proof. reflexivity. Qed.

Lemma trim_right_fixed s : trim_right (trim_right s) = trim_right s.
Proof.
  induction s as [|c r IH]; [reflexivity|]. rewrite trim_right_cons.
  destruct (is_space_rune (String c (trim_right r))) eqn:E; [reflexivity|].
  rewrite trim_right_cons, IH, E. reflexivity.
Qed.

Lemma trim_right_prefix s : exists t, s = trim_right s ++ t.
Proof.
  induction s as [|c r [t IH]]; [exists ""; reflexivity|]. rewrite trim_right_cons.
  destruct (is_space_rune (String c (trim_right r))).
  - exists (String c r). reflexivity.
  - exists t. simpl. rewrite <- IH. reflexivity.
Qed.

Lemma starts_clean_fixed s : starts_clean s -> trim_left s = s.
Proof.
  destruct s as [|c1 [|c2 [|c3 r3]]]; simpl; try reflexivity.
  - intros [-> _]. reflexivity.
  - intros [-> [-> _]]. reflexivity.
  - intros [-> [-> ->]]. reflexivity.
Qed.

Lemma trim_left_clean s : starts_clean (trim_left s).
Proof.
  assert (G : forall n s, (String.length s <= n)%nat -> starts_clean (trim_left s)).
  { induction n as [|n IH]; intros t Ht.
    - destruct t; simpl in *; [exact I | lia].
    - destruct t as [|c1 r1]; [exact I|]. simpl in Ht. simpl trim_left.
      destruct (space1 c1) eqn:E1; [apply IH; lia|].
      destruct r1 as [|c2 r2]; [simpl; auto|]. simpl in Ht.
      destruct (space2 c1 c2) eqn:E2; [apply IH; lia|].
      destruct r2 as [|c3 r3]; [simpl; auto|]. simpl in Ht.
      destruct (space3 c1 c2 c3) eqn:E3; [apply IH; lia|].
      simpl. auto. }
  apply (G (String.length s)). lia.
Qed.

Lemma starts_clean_prefix s t : starts_clean (s ++ t) -> starts_clean s.
Proof.
  destruct s as [|c1 [|c2 [|c3 r3]]]; simpl; try tauto; destruct t; simpl; tauto.
Qed.

Lemma trim_right_clean s : starts_clean s -> starts_clean (trim_right s).
Proof.
  intros H. destruct (trim_right_prefix s) as [t E]. rewrite E in H.
  exact (starts_clean_prefix _ _ H).
Qed.

(** Trimming twice is trimming once. *)
Lemma TrimSpace_fixed s : TrimSpace (TrimSpace s) = TrimSpace s.
Proof.
  unfold TrimSpace.
  rewrite (starts_clean_fixed (trim_right (trim_left s)))
    by (apply trim_right_clean, trim_left_clean).
  apply trim_right_fixed.
Qed.

(** [TrimSpace] on a few byte strings: ASCII blanks, a no-break space
    (C2 A0) in front, a line separator (E2 80 A8) behind; white space
    inside stays; a lone continuation byte is no white space. *)
Example TrimSpace_examples :
  TrimSpace (bytes [32; 9; 194; 160; 104; 105; 226; 128; 168; 13]%nat) = "hi"
  /\ TrimSpace "  a b  " = "a b"
  /\ TrimSpace (bytes [160; 104; 133]%nat) = bytes [160; 104; 133]%nat
  /\ TrimSpace (bytes [32; 227; 128; 128; 10]%nat) = "".
Proof. repeat split; reflexivity. Qed.

Lemma inert_no_rune c t : inert c -> is_space_rune (String c t) = false.
Proof.
  intros [Hlt Hs]. destruct t as [|c2 [|c3 [|c4 r]]]; simpl; try assumption; try reflexivity.
  - unfold space2. destruct (Nat.eqb_spec (nat_of_ascii c) 194); [lia | reflexivity].
  - unfold space3.
    destruct (Nat.eqb_spec (nat_of_ascii c) 225); [lia|].
    destruct (Nat.eqb_spec (nat_of_ascii c) 226); [lia|].
    destruct (Nat.eqb_spec (nat_of_ascii c) 227); [lia|]. reflexivity.
Qed.

Lemma trim_right_inert c t :
  inert c -> trim_right t = t -> trim_right (String c t) = String c t.
Proof. intros Hc Ht. rewrite trim_right_cons, Ht, inert_no_rune by assumption. reflexivity. Qed.

(** The scheme put in front of a trimmed line leaves it trimmed. *)
Lemma TrimSpace_https line :
  TrimSpace line = line -> TrimSpace ("https://" ++ line) = "https://" ++ line.
Proof.
  intros H. unfold TrimSpace.
  assert (Hr : trim_right line = line).
  { rewrite <- H at 1. unfold TrimSpace. rewrite trim_right_fixed. exact H. }
  change (trim_left ("https://" ++ line)) with ("https://" ++ line).
  simpl append.
  repeat (apply trim_right_inert; [split; [apply Nat.ltb_lt; reflexivity | reflexivity]|]).
  exact Hr.
Qed.

Lemma prefix_append p s : prefix p (p ++ s) = true.
Proof.
  induction p as [|a p IH]; simpl; [destruct s; reflexivity|].
  destruct (ascii_dec a a); [assumption | congruence].
Qed.

Lemma prefix_cons a s1 b s2 :
  prefix (String a s1) (String b s2) = if ascii_dec a b then prefix s1 s2 else false.
Proof. reflexivity. Qed.

Lemma has_scheme_not_blank u : has_scheme u = true -> u <> "" /\ prefix "#" u = false.
Proof.
  unfold has_scheme. destruct u as [|c r]; [discriminate|]. intros H.
  split; [discriminate|].
  change "http://" with (String "h" "ttp://") in H.
  change "https://" with (String "h" "ttps://") in H.
  change "#" with (String "#" "").
  rewrite !prefix_cons in *.
  destruct (ascii_dec "h" c) as [<-|]; [|discriminate].
  destruct (ascii_dec "#" "h") as [E|]; [discriminate E | reflexivity].
Qed.

Lemma normalize_line_fixed u :
  has_scheme u = true -> TrimSpace u = u -> normalize_line u = Some u.
Proof.
  intros Hs Ht. destruct (has_scheme_not_blank u Hs) as [Hne Hc].
  unfold normalize_line. rewrite Ht, Hc.
  apply String.eqb_neq in Hne. rewrite Hne. simpl.
  unfold has_scheme in Hs.
  destruct (prefix "http://" u), (prefix "https://" u); simpl in *; congruence.
Qed.

Lemma normalize_line_spec raw u :
  normalize_line raw = Some u ->
  has_scheme u = true /\ TrimSpace u = u /\ normalize_line u = Some u.
Proof.
  unfold normalize_line at 1. pose proof (TrimSpace_fixed raw) as Hfix.
  set (line := TrimSpace raw) in *.
  destruct ((line =? "") || prefix "#" line) eqn:Hskip; [discriminate|].
  destruct (negb (prefix "http://" line) && negb (prefix "https://" line)) eqn:Hs;
    intros H; injection H as <-.
  - assert (Hu : TrimSpace ("https://" ++ line) = "https://" ++ line)
      by (apply TrimSpace_https; assumption).
    assert (Hh : has_scheme ("https://" ++ line) = true).
    { unfold has_scheme. rewrite (prefix_append "https://" line). apply orb_true_r. }
    split; [assumption|]. split; [assumption|]. apply normalize_line_fixed; assumption.
  - assert (Hh : has_scheme line = true).
    { unfold has_scheme.
      destruct (prefix "http://" line), (prefix "https://" line); simpl in *;
        congruence. }
    split; [assumption|]. split; [assumption|]. apply normalize_line_fixed; assumption.
Qed.

Lemma scan_lines_acc lines : forall urls,
  scan_lines lines urls = (urls ++ scan_lines lines [])%list.
Proof.
  induction lines as [|raw rest IH]; intros urls; simpl.
  - rewrite app_nil_r. reflexivity.
  - destruct (normalize_line raw) as [u|]; [|apply IH].
    rewrite IH, (IH [u]), <- app_assoc. reflexivity.
Qed.

Lemma scan_lines_from lines :
  Forall (fun u => exists raw, In raw lines /\ normalize_line raw = Some u)
         (scan_lines lines []).
Proof.
  induction lines as [|raw rest IH]; simpl; [constructor|].
  assert (IH' : Forall (fun u => exists raw0, In raw0 (raw :: rest)
                                  /\ normalize_line raw0 = Some u)
                       (scan_lines rest [])).
  { eapply Forall_impl; [|exact IH]. simpl. intros u (r & Hr & Hn). eauto. }
  destruct (normalize_line raw) as [u|] eqn:E; [|exact IH'].
  rewrite scan_lines_acc. simpl. constructor; [|exact IH']. exists raw. simpl. auto.
Qed.

Lemma scan_lines_schemes lines :
  Forall (fun u => has_scheme u = true) (scan_lines lines []).
Proof.
  eapply Forall_impl; [|apply scan_lines_from]. simpl.
  intros u (raw & _ & Hn). apply (normalize_line_spec _ _ Hn).
Qed.

Lemma scan_lines_normalised lines :
  Forall (fun u => normalize_line u = Some u) lines ->
  scan_lines lines [] = lines.
Proof.
  induction lines as [|u rest IH]; intros H; simpl; [reflexivity|].
  apply Forall_cons_iff in H. destruct H as [Hu Hrest].
  rewrite Hu, scan_lines_acc, IH by assumption. reflexivity.
Qed.

(** X1.  Whatever the file holds and whether or not the scanner ends with
    an error, every URL that [loadURLsFromFile] returns starts with
    [http://] or [https://], has no white space at either end, is not
    empty and is no comment line. *)
Theorem loaded_urls_are_normalised {E : Type} (os_Open : string -> E + Scan E) path :
  Forall (fun u => has_scheme u = true
                   /\ TrimSpace u = u
                   /\ u <> ""
                   /\ prefix "#" u = false)
         (fst (loadURLsFromFile os_Open path)).
Proof.
  unfold loadURLsFromFile. destruct (os_Open path) as [err|sc]; simpl; [constructor|].
  eapply Forall_impl; [|apply scan_lines_from]. simpl.
  intros u (raw & _ & Hn). destruct (normalize_line_spec _ _ Hn) as (Hs & Ht & _).
  destruct (has_scheme_not_blank _ Hs). auto.
Qed.

(** X2.  A URL that a load has returned is left alone by a later load.
    Whatever lines the scanner delivers from a second file (all of a
    rewritten file, or only those before a line beyond the scanner's
    64 KiB limit, with its error), if each of them is a URL that a first
    load returned, the second load returns exactly those lines, in their
    order, none dropped and none given a second scheme, together with the
    scanner's error if it has one. *)
Theorem loaded_urls_reload_unchanged {E E' : Type}
  (os_Open : string -> E + Scan E) path
  (os_Open' : string -> E' + Scan E') path' sc' :
  os_Open' path' = inr sc' ->
  (forall l, In l (scanned sc') -> In l (fst (loadURLsFromFile os_Open path))) ->
  loadURLsFromFile os_Open' path' = (scanned sc', scan_Err sc').
Proof.
  intros Hopen Hin. unfold loadURLsFromFile at 1. rewrite Hopen. f_equal.
  apply scan_lines_normalised. apply Forall_forall. intros l Hl.
  specialize (Hin l Hl). unfold loadURLsFromFile in Hin.
  destruct (os_Open path) as [err|sc]; simpl in Hin; [destruct Hin|].
  pose proof (scan_lines_from (scanned sc)) as Hfrom.
  rewrite Forall_forall in Hfrom. destruct (Hfrom l Hin) as (raw & _ & Hn).
  apply (normalize_line_spec _ _ Hn).
Qed.

Lemma loaded_urls_reload_unchanged_witness :
  loadURLsFromFile (fun _ : string => @inr unit (Scan unit) reloaded_file) "urls2.txt"
  = (["http://a"; "https://example.org"], None).
Proof.
  apply (loaded_urls_reload_unchanged
           (fun _ : string => @inr unit (Scan unit) first_file) "urls.txt"
           (fun _ : string => @inr unit (Scan unit) reloaded_file) "urls2.txt"
           reloaded_file).
  - reflexivity.
  - assert (L : fst (loadURLsFromFile
                       (fun _ : string => @inr unit (Scan unit) first_file) "urls.txt")
                = ["https://example.org"; "http://a"]) by (vm_compute; reflexivity).
    rewrite L. simpl. intros l [<-|[<-|[]]]; auto.
Defined.

(** X3.  [main] leaves with exit code 1 exactly when the file cannot be
    opened, the scanner reports an error, or no line of the file yields a
    URL; otherwise it goes on with a non-empty list of URLs that all carry
    a scheme. *)
Theorem main_startup_contract {E : Type} (os_Open : string -> E + Scan E) path :
  match main_startup os_Open path with
  | Exit code =>
    code = 1
    /\ ((exists err, os_Open path = inl err)
        \/ (exists sc, os_Open path = inr sc
                       /\ (scan_Err sc <> None \/ scan_lines (scanned sc) [] = [])))
  | Proceed urls =>
    urls <> []
    /\ Forall (fun u => has_scheme u = true) urls
    /\ exists sc, os_Open path = inr sc /\ scan_Err sc = None
                  /\ urls = scan_lines (scanned sc) []
  end.
Proof.
  unfold main_startup, loadURLsFromFile.
  destruct (os_Open path) as [err|sc]; simpl.
  - split; [reflexivity|]. left. eauto.
  - pose proof (scan_lines_schemes (scanned sc)) as Hn.
    destruct (scan_lines (scanned sc) []) as [|u urls] eqn:Hs;
      destruct (scan_Err sc) as [e|] eqn:He; simpl.
    + split; [reflexivity|]. right. exists sc. split; [reflexivity|]. left. rewrite He. discriminate.
    + split; [reflexivity|]. right. exists sc. split; [reflexivity|]. right. exact Hs.
    + split; [reflexivity|]. right. exists sc. split; [reflexivity|]. left. rewrite He. discriminate.
    + split; [discriminate|]. split; [exact Hn|].
      exists sc. split; [reflexivity|]. split; [exact He | symmetry; exact Hs].
Qed.

End URLFile.

(* ================================================================= *)
(** ** The prober and the retry policy, in general *)

(** X4.  On a URL that does not parse, [pingOnce] panics before any request
    is sent.  On a URL that parses it returns, having sent a HEAD request
    first and a GET request only when the HEAD request failed: after a
    successful HEAD it has made one request and reports the HEAD status
    with no error; after a failed HEAD it has made exactly two requests
    and reports what GET gave.  The result carries an error exactly when
    both requests failed; it carries the URL and the time read before the
    first request. *)
Theorem pingOnce_head_then_get w url s :
  let head := client_Do w (n_http s) MethodHead url in
  let get := client_Do w (S (n_http s)) MethodGet url in
  let s' := snd (pingOnce w url s) in
  (fst (pingOnce w url s) = None <-> url_Parse w url = false)
  /\ (fst (pingOnce w url s) = None -> n_http s' = n_http s /\ probes s' = probes s)
  /\ (forall r, fst (pingOnce w url s) = Some r ->
      (snd head = None ->
         Error r = None /\ Status r = status_of (fst head) /\ n_http s' = S (n_http s))
      /\ (snd head <> None ->
         Error r = snd get /\ Status r = status_of (fst get)
         /\ n_http s' = S (S (n_http s)))
      /\ (Error r <> None <-> snd head <> None /\ snd get <> None)
      /\ URL r = url
      /\ When r = time_Now w (n_clock s)
      /\ probes s' = probes s ++ [r]).
Proof.
  intros head get s'. subst head get s'.
  unfold pingOnce, bind, now, do_request, log_probe, ret. simpl.
  destruct (url_Parse w url); simpl.
  - destruct (client_Do w (n_http s) MethodHead url) as [resp [e|]]; simpl.
    + destruct (client_Do w (S (n_http s)) MethodGet url) as [resp' err']; simpl.
      split; [split; discriminate|]. split; [discriminate|].
      intros r H. injection H as <-. simpl.
      intuition (try congruence; try discriminate).
    + split; [split; discriminate|]. split; [discriminate|].
      intros r H. injection H as <-. simpl.
      intuition (try congruence; try discriminate).
  - split; [split; reflexivity|]. split; [intros _; split; reflexivity|].
    intros r H. discriminate H.
Qed.










(** X8.  With a negative retry budget a worker makes no request at all,
    yet hands the zero [Result] on to its submission; the collector
    counts that result as a success, leaves [failed] alone, and lowers
    [minLatency] to 0 (or keeps it, had it been negative). *)
Theorem negative_retries_report_success cfg url p sh st :
  retries cfg < 0 ->
  (0 < fuel p)%nat ->
  worker_step cfg url p sh AtPing
  = Some (set_ctx_done sh (ctx_done sh), AtSubmit zero_Result, [EvRetryPolicy zero_Result])
  /\ success (collect_one st zero_Result) = Int64.add (success st) 1
  /\ failed (collect_one st zero_Result) = failed st
  /\ minLatency (collect_one st zero_Result) = Z.min 0 (minLatency st).
Proof.
  intros HR Hf. split.
  - simpl. unfold pingWithRetries. destruct (fuel p) as [|f]; [lia|]. simpl.
    destruct (Z.leb_spec 0 (retries cfg)); [lia|]. unfold ret. simpl.
    rewrite orb_false_r. reflexivity.
  - rewrite collect_one_success, collect_one_failed, collect_one_min. repeat split.
Qed.

Lemma negative_retries_report_success_witness :
  worker_step cfg_no_attempts "A" pick_send shared_held AtPing
  = Some (set_ctx_done shared_held (ctx_done shared_held), AtSubmit zero_Result,
          [EvRetryPolicy zero_Result])
  /\ success (collect_one stats0 zero_Result) = Int64.add (success stats0) 1
  /\ failed (collect_one stats0 zero_Result) = failed stats0
  /\ minLatency (collect_one stats0 zero_Result) = Z.min 0 (minLatency stats0).
Proof.
  apply negative_retries_report_success; simpl; lia.
Defined.

(* ================================================================= *)
(** ** The collector, whatever the order of arrival *)

Lemma stats_ext (a b : Stats) :
  total a = total b -> success a = success b -> failed a = failed b ->
  sumNanos a = sumNanos b -> minLatency a = minLatency b -> maxLatency a = maxLatency b ->
  a = b.
Proof. destruct a, b; simpl; intros; subst; reflexivity. Qed.

Lemma add_add_swap x a b : Int64.add (Int64.add x a) b = Int64.add (Int64.add x b) a.
Proof. unfold Int64.add. rewrite !wrap_add_wrap. f_equal. lia. Qed.

Lemma collect_one_swap st a b :
  collect_one (collect_one st a) b = collect_one (collect_one st b) a.
Proof.
  apply stats_ext;
    rewrite ?collect_one_total, ?collect_one_success, ?collect_one_failed,
      ?collect_one_sum, ?collect_one_min, ?collect_one_max;
    destruct (aggregate_ok a), (aggregate_ok b), (error_free a), (error_free b);
    first [apply add_add_swap | lia].
Qed.

(** X9.  The statistics do not depend on the order in which the workers'
    results reach the collector: any two arrival orders of the same
    results leave the same six counters, wrap-around included. *)
Theorem collector_order_independent rs rs' :
  Permutation rs rs' -> collector rs = collector rs'.
Proof.
  unfold collector. generalize stats0.
  intros st H. revert st. induction H; intros st; simpl.
  - reflexivity.
  - apply IHPermutation.
  - rewrite collect_one_swap. reflexivity.
  - rewrite IHPermutation1. apply IHPermutation2.
Qed.

Lemma collector_order_independent_witness :
  collector [result_A; result_B] = collector [result_B; result_A].
Proof.
  apply collector_order_independent. apply perm_swap.
Defined.

Lemma sum_le_count_max rs :
  (forall r, In r rs -> 0 <= Duration r) ->
  0 <= max_duration rs
  /\ sum_durations rs <= Z.of_nat (List.length rs) * max_duration rs.
Proof.
  unfold sum_durations, max_duration. induction rs as [|r rs IH]; intros H; [simpl; lia|].
  destruct IH as [IH0 IH1]; [intros x Hx; apply H; simpl; tauto|].
  pose proof (H r (or_introl eq_refl)).
  cbn [fold_right List.length]. rewrite Nat2Z.inj_succ.
  set (m := fold_right (fun r acc => Z.max (Duration r) acc) 0 rs) in *.
  set (sm := fold_right (fun r acc => Duration r + acc) 0 rs) in *.
  split; [lia|].
  assert (Z.of_nat (List.length rs) * m
          <= Z.of_nat (List.length rs) * Z.max (Duration r) m)
    by (apply Z.mul_le_mono_nonneg_l; lia).
  rewrite Z.mul_succ_l. lia.
Qed.

(** The quotient that [main] forms from the final counters lies between
    0 and the final [maxLatency]. *)
Lemma collector_average_bounds rs :
  (forall r, In r rs -> 0 <= Duration r) ->
  sum_durations (error_free_results rs) <= Int64.MaxInt64 ->
  Z.of_nat (List.length rs) <= Int64.MaxInt64 ->
  0 <= average (collector rs) <= maxLatency (collector rs).
Proof.
  intros Hnn Hsum Hlen.
  assert (Hok : forall r, In r (error_free_results rs) -> 0 <= Duration r).
  { intros r Hr. apply Hnn. unfold error_free_results in Hr. apply filter_In in Hr. tauto. }
  destruct (sum_le_count_max _ Hok) as [Hm0 Hsm].
  pose proof (sum_durations_nonneg _ Hok) as Hs0.
  destruct (collector_extrema rs) as [_ Hmax].
  destruct (collector_counts rs Hlen) as (Ht & _ & _).
  unfold average. rewrite collector_sum, Ht, Hmax, wrap_in_range
    by (unfold Int64.in_range, Int64.MinInt64, Int64.MaxInt64 in *; lia).
  assert (Hcnt : Z.of_nat (List.length (error_free_results rs)) <= Z.of_nat (List.length rs)).
  { unfold error_free_results. apply Nat2Z.inj_le. apply filter_length_le. }
  destruct (Z.ltb_spec 0 (Z.of_nat (List.length rs)));
    destruct (Z.ltb_spec 0 (sum_durations (error_free_results rs))); simpl; try lia.
  rewrite Z.quot_div_nonneg by lia. split.
  - apply Z.div_pos; lia.
  - apply Z.div_le_upper_bound; [lia|]. nia.
Qed.

(** X10.  In the executions in which all the reads of [main] come after
    the last statement of the collector (nothing in the code brings this
    about, and other executions break it), with durations that are not
    negative and no overflow of the sum or of the count: the summary has
    no latency line only when there was no result, and the average it
    prints lies between 0 and the maximum it prints. *)
Theorem average_bounded_after_the_collector rs k :
  (forall r, In r rs -> 0 <= Duration r) ->
  sum_durations (error_free_results rs) <= Int64.MaxInt64 ->
  Z.of_nat (List.length rs) <= Int64.MaxInt64 ->
  after_the_collector rs k ->
  match latency_line (printed_summary rs k) with
  | Some (avg, _, mx) => 0 <= avg <= mx
  | None => rs = []
  end.
Proof.
  intros Hnn Hsum Hlen Hafter.
  rewrite (printed_after_the_collector rs k Hafter).
  pose proof (collector_average_bounds rs Hnn Hsum Hlen) as Hb.
  destruct (collector_counts rs Hlen) as (Ht & _ & _).
  unfold summary. cbn [latency_line]. rewrite Ht.
  destruct (Z.ltb_spec 0 (Z.of_nat (List.length rs))); [exact Hb|].
  destruct rs; [reflexivity | simpl in *; lia].
Qed.

Lemma average_bounded_after_the_collector_witness :
  match latency_line (printed_summary [result_A; result_B] (all_at 7)) with
  | Some (avg, _, mx) => 0 <= avg <= mx
  | None => [result_A; result_B] = []
  end.
Proof.
  apply average_bounded_after_the_collector.
  - intros r [<-|[<-|[]]]; simpl; lia.
  - unfold Int64.MaxInt64. simpl. lia.
  - unfold Int64.MaxInt64. simpl. lia.
  - unfold after_the_collector, in_program_order, all_at. simpl. lia.
Defined.

(* ================================================================= *)
(** ** The dispatch loop *)

Lemma rounds_from_length urls : forall n i,
  List.length (rounds_from i n urls) = (n * List.length urls)%nat.
Proof.
  induction n as [|n IH]; intros i; simpl; [reflexivity|].
  rewrite length_app, length_map, IH. reflexivity.
Qed.

Lemma spawn_round_spec done i urls : forall d b d',
  spawn_round done i urls d = (b, d') ->
  exists pre post,
    urls = pre ++ post
    /\ spawned d' = spawned d ++ map (pair i) pre
    /\ waits d' = waits d
    /\ (b = false -> post = []).
Proof.
  induction urls as [|u rest IH]; intros d b d' H; simpl in H.
  - injection H as <- <-. exists [], []. simpl. rewrite app_nil_r. repeat split; auto.
  - destruct (done (polls d)).
    + injection H as <- <-. exists [], (u :: rest). simpl. rewrite app_nil_r.
      repeat split. discriminate.
    + apply IH in H. destruct H as (pre & post & -> & Hs & Hw & Hb). simpl in Hs, Hw.
      exists (u :: pre), post. simpl. rewrite Hs, <- app_assoc. repeat split; assumption.
Qed.

Lemma spawn_round_quiet done i urls : forall d,
  (forall n, done n = false) ->
  exists d', spawn_round done i urls d = (false, d')
             /\ spawned d' = spawned d ++ map (pair i) urls /\ waits d' = waits d.
Proof.
  induction urls as [|u rest IH]; intros d Hq; simpl.
  - exists d. simpl. rewrite app_nil_r. repeat split.
  - rewrite Hq. destruct (IH {| spawned := spawned d ++ [(i, u)]; waits := waits d;
                               polls := S (polls d) |} Hq) as (d' & -> & Hs & Hw).
    exists d'. simpl in *. rewrite Hs, <- app_assoc. repeat split; assumption.
Qed.

Lemma dispatch_loop_prefix done count urls :
  count <= Int64.MaxInt64 ->
  forall fuel i d d',
    0 <= i ->
    dispatch_loop fuel done count urls i d = Some d' ->
    exists sp rest,
      spawned d' = spawned d ++ sp
      /\ rounds_from i (Z.to_nat (count - i)) urls = sp ++ rest
      /\ (waits d' - waits d <= Nat.pred (Z.to_nat (count - i)))%nat
      /\ (waits d <= waits d')%nat.
Proof.
  intros Hc fuel. induction fuel as [|fuel IH]; intros i d d' Hi H; [discriminate|].
  simpl in H. destruct (Z.ltb_spec i count) as [Hlt|Hge].
  2:{ injection H as <-. exists [], []. rewrite app_nil_r.
      replace (Z.to_nat (count - i)) with 0%nat by lia. repeat split; lia. }
  destruct (spawn_round done i urls d) as [broke d1] eqn:Hsr.
  destruct (spawn_round_spec _ _ _ _ _ _ Hsr) as (pre & post & Hu & Hs & Hw & Hb).
  replace (Z.to_nat (count - i)) with (S (Z.to_nat (count - (i + 1)))) by lia.
  simpl rounds_from.
  assert (Hm1 : Int64.add count (-1) = count - 1).
  { unfold Int64.add. apply wrap_in_range.
    unfold Int64.in_range, Int64.MinInt64, Int64.MaxInt64 in *. lia. }
  assert (Hp1 : Int64.add i 1 = i + 1).
  { apply add_one_small. unfold Int64.MaxInt64 in *. lia. }
  destruct broke.
  - injection H as <-. exists (map (pair i) pre).
    eexists. rewrite Hu, map_app, <- app_assoc. repeat split; try eassumption; lia.
  - specialize (Hb eq_refl). subst post. rewrite app_nil_r in Hu. subst pre.
    rewrite Hm1, Hp1 in H.
    destruct (Z.ltb_spec i (count - 1)).
    + destruct (done (polls d1)).
      * injection H as <-. simpl. exists (map (pair i) urls). eexists.
        repeat split; try eassumption; try reflexivity; lia.
      * apply IH in H; [|lia]. destruct H as (sp & rest & Hs' & Hr & Hw1 & Hw2).
        simpl in Hs', Hw1, Hw2. exists (map (pair i) urls ++ sp), rest.
        rewrite Hs', Hs, Hr, <- !app_assoc. repeat split; lia.
    + apply IH in H; [|lia]. destruct H as (sp & rest & Hs' & Hr & Hw1 & Hw2).
      exists (map (pair i) urls ++ sp), rest.
      rewrite Hs', Hs, Hr, <- !app_assoc. repeat split; lia.
Qed.

Lemma dispatch_loop_quiet done count urls :
  count <= Int64.MaxInt64 ->
  (forall n, done n = false) ->
  forall (n : nat) i d fuel,
    0 <= i ->
    count - i <= Z.of_nat n ->
    (n < fuel)%nat ->
    exists d',
      dispatch_loop fuel done count urls i d = Some d'
      /\ spawned d' = spawned d ++ rounds_from i (Z.to_nat (count - i)) urls
      /\ waits d' = (waits d + Nat.pred (Z.to_nat (count - i)))%nat.
Proof.
  intros Hc Hq.
  assert (Hexit : forall i d, count <= i ->
            exists d', Some d = Some d'
              /\ spawned d' = spawned d ++ rounds_from i (Z.to_nat (count - i)) urls
              /\ waits d' = (waits d + Nat.pred (Z.to_nat (count - i)))%nat).
  { intros i d Hge. exists d. replace (Z.to_nat (count - i)) with 0%nat by lia.
    simpl. rewrite app_nil_r, Nat.add_0_r. repeat split. }
  induction n as [|n IH]; intros i d fuel Hi Hn Hfuel;
    (destruct fuel as [|fuel]; [lia|]); simpl dispatch_loop;
    (destruct (Z.ltb_spec i count) as [Hlt|Hge]; [|apply Hexit; assumption]); [lia|].
  destruct (spawn_round_quiet done i urls d Hq) as (d1 & -> & Hs & Hw).
  assert (Hm1 : Int64.add count (-1) = count - 1).
  { unfold Int64.add. apply wrap_in_range.
    unfold Int64.in_range, Int64.MinInt64, Int64.MaxInt64 in *. lia. }
  assert (Hp1 : Int64.add i 1 = i + 1).
  { apply add_one_small. unfold Int64.MaxInt64 in *. lia. }
  rewrite Hm1, Hp1, Hq.
  replace (Z.to_nat (count - i)) with (S (Z.to_nat (count - (i + 1)))) by lia.
  simpl rounds_from.
  destruct (Z.ltb_spec i (count - 1)).
  - edestruct (IH (i + 1)) as (d' & -> & Hs' & Hw'); [lia | lia | | ]; [lia|].
    exists d'. simpl in Hs', Hw'. rewrite Hs', Hw', Hs, Hw, <- app_assoc.
    repeat split.
    replace (Z.to_nat (count - (i + 1)))
      with (S (Nat.pred (Z.to_nat (count - (i + 1))))) at 2 by lia.
    simpl. lia.
  - edestruct (IH (i + 1)) as (d' & -> & Hs' & Hw'); [lia | lia | | ]; [lia|].
    exists d'. rewrite Hs', Hw', Hs, Hw, <- app_assoc.
    replace (Z.to_nat (count - (i + 1))) with 0%nat by lia. simpl.
    repeat split; lia.
Qed.

(** X11.  While the context is never cancelled, the dispatch loop (for a
    [count] that is a Go [int]) ends, any fuel above [count] being
    enough, having spawned one worker per URL
    and per round, round after round and in the order of the file:
    [count * len(urls)] workers in all; it has waited [count - 1] times
    for the interval (never after the last round), and has spawned nothing
    when [count <= 0]. *)
Theorem dispatch_full_schedule fuel done count urls :
  count <= Int64.MaxInt64 ->
  (forall n, done n = false) ->
  (Z.to_nat count < fuel)%nat ->
  exists d,
    dispatch fuel done count urls = Some d
    /\ spawned d = rounds_from 0 (Z.to_nat count) urls
    /\ List.length (spawned d) = (Z.to_nat count * List.length urls)%nat
    /\ waits d = Nat.pred (Z.to_nat count)
    /\ (count <= 0 -> spawned d = []).
Proof.
  intros Hc Hq Hfuel. unfold dispatch.
  destruct (dispatch_loop_quiet done count urls Hc Hq (Z.to_nat count) 0 dispatch0 fuel)
    as (d & Hd & Hs & Hw); [lia | lia | assumption |].
  rewrite Z.sub_0_r in Hs, Hw. simpl in Hs, Hw.
  exists d. split; [assumption|]. split; [assumption|].
  split; [rewrite Hs; apply rounds_from_length|]. split; [assumption|].
  intros H0. rewrite Hs. replace (Z.to_nat count) with 0%nat by lia. reflexivity.
Qed.

Lemma dispatch_full_schedule_witness :
  exists d,
    dispatch 3 (fun _ => false) 2 ["A"; "B"]%string = Some d
    /\ spawned d = rounds_from 0 (Z.to_nat 2) ["A"; "B"]%string
    /\ List.length (spawned d) = (Z.to_nat 2 * 2)%nat
    /\ waits d = Nat.pred (Z.to_nat 2)
    /\ (2 <= 0 -> spawned d = []).
Proof.
  apply (dispatch_full_schedule 3 (fun _ => false) 2 ["A"; "B"]%string).
  - unfold Int64.MaxInt64. lia.
  - intros n. reflexivity.
  - simpl. lia.
Defined.

(** X12.  However and whenever the context is cancelled, what the
    dispatch loop (for a [count] that is a Go [int]) has spawned when it
    ends is an initial part of the full schedule: no entry of the
    schedule is skipped, spawned a second time or taken out of order, and
    at most [count - 1] interval waits ran out. *)
Theorem dispatch_spawns_a_prefix fuel done count urls d :
  count <= Int64.MaxInt64 ->
  dispatch fuel done count urls = Some d ->
  exists rest,
    rounds_from 0 (Z.to_nat count) urls = spawned d ++ rest
    /\ (List.length (spawned d) <= Z.to_nat count * List.length urls)%nat
    /\ (waits d <= Nat.pred (Z.to_nat count))%nat.
Proof.
  intros Hc H. unfold dispatch in H.
  destruct (dispatch_loop_prefix done count urls Hc fuel 0 dispatch0 d (Z.le_refl 0) H)
    as (sp & rest & Hs & Hr & Hw & _).
  rewrite Z.sub_0_r in Hr, Hw. simpl in Hs, Hw. subst sp.
  exists rest. split; [assumption|]. split; [|lia].
  rewrite <- (rounds_from_length urls (Z.to_nat count) 0), Hr, length_app. lia.
Qed.

Lemma dispatch_spawns_a_prefix_witness :
  exists d rest,
    dispatch 3 done_from_3 2 ["A"; "B"]%string = Some d
    /\ rounds_from 0 (Z.to_nat 2) ["A"; "B"]%string = spawned d ++ rest
    /\ (List.length (spawned d) <= Z.to_nat 2 * 2)%nat
    /\ (waits d <= Nat.pred (Z.to_nat 2))%nat.
Proof.
  assert (E : exists d, dispatch 3 done_from_3 2 ["A"; "B"]%string = Some d)
    by (eexists; reflexivity).
  destruct E as (d & E).
  assert (Hc : 2 <= Int64.MaxInt64) by (unfold Int64.MaxInt64; lia).
  destruct (dispatch_spawns_a_prefix 3 done_from_3 2 ["A"; "B"]%string d Hc E)
    as (rest & H).
  exists d, rest. split; [exact E | exact H].
Defined.

(* ================================================================= *)
(** ** The program as a whole *)

Lemma nth_error_update {A : Type} (l : list A) : forall i a x,
  nth_error l i = Some a ->
  exists l1 l2, l = l1 ++ a :: l2 /\ update_nth i x l = l1 ++ x :: l2.
Proof.
  induction l as [|b l IH]; intros [|i] a x H; simpl in H; try discriminate.
  - injection H as ->. exists [], l. split; reflexivity.
  - destruct (IH i a x H) as (l1 & l2 & -> & Hu).
    exists (b :: l1), l2. split; [reflexivity|].
    unfold update_nth in *. simpl firstn. simpl skipn in *. simpl. rewrite Hu. reflexivity.
Qed.

Lemma holders_app l1 l2 : holders (l1 ++ l2) = (holders l1 + holders l2)%nat.
Proof. unfold holders. rewrite filter_app, length_app. reflexivity. Qed.

Lemma holders_cons u pc l :
  holders ((u, pc) :: l) = ((if holds_permit pc then 1 else 0) + holders l)%nat.
Proof. unfold holders. simpl. destruct (holds_permit pc); reflexivity. Qed.

(** What one step of a worker does to the shared state. *)
Lemma worker_step_effect cfg url p sh pc sh' pc' evs :
  worker_step cfg url p sh pc = Some (sh', pc', evs) ->
  ((sem sh' + (if holds_permit pc then 1 else 0)
    = sem sh + (if holds_permit pc' then 1 else 0))%nat
   /\ (holds_permit pc = false -> holds_permit pc' = true ->
       Z.of_nat (sem sh) < concurrency cfg))
  /\ (tokens sh' <= tokens sh)%nat
  /\ results sh' = results sh ++ submitted_in evs
  /\ (submitted_in evs <> [] -> (List.length (results sh) < results_capacity)%nat)
  /\ (List.length (submitted_in evs) <= 1)%nat
  /\ (ctx_done sh = true -> ctx_done sh' = true).
Proof.
  destruct pc; simpl; intros H;
    repeat match type of H with
           | context [if ?c then _ else _] => destruct c eqn:?
           | context [match ?c with _ => _ end] => destruct c eqn:?
           end;
    inversion H; subst; clear H; simpl;
    rewrite ?app_nil_r;
    repeat split; try reflexivity; try discriminate; try congruence; try lia;
    try (intros; exfalso; congruence).
  all: try (intros _ _; apply Z.ltb_lt; assumption).
  all: try (intros _; apply Nat.ltb_lt; assumption).
  all: try (intros ->; reflexivity).
Qed.

Lemma Inv_init cfg : Inv cfg (sys0 cfg).
Proof.
  unfold Inv, sys0, holders. simpl. repeat split; try lia.
Qed.

Lemma Inv_step cfg a y y' :
  Inv cfg y -> sys_step cfg a y = Some y' -> Inv cfg y'.
Proof.
  intros (Hsem & Hcap & Htok & Hres & Hsub & Hoff) Hstep. destruct a; simpl in Hstep.
  - (* spawn *)
    injection Hstep as <-. unfold Inv. simpl.
    rewrite holders_app, holders_cons. change (holders []) with 0%nat. simpl.
    split; [lia|]. repeat split; try assumption; apply Hoff; assumption.
  - (* a worker moves *)
    destruct (nth_error (workers y) i) as [[url pc]|] eqn:Hnth; [|discriminate].
    destruct (worker_step cfg url p (shared y) pc) as [[[sh' pc'] evs]|] eqn:Hw;
      [|discriminate].
    injection Hstep as <-.
    destruct (worker_step_effect _ _ _ _ _ _ _ _ Hw)
      as ((Hperm & Hacq) & Htk & Hrs & Hroom & Hone & _).
    destruct (nth_error_update _ _ _ (url, pc') Hnth) as (l1 & l2 & Hl & Hu).
    unfold Inv. simpl. rewrite Hu. rewrite Hl in Hsem.
    rewrite holders_app, holders_cons in *.
    split; [|split; [|split; [|split; [|split]]]].
    + destruct (holds_permit pc), (holds_permit pc'); lia.
    + destruct (holds_permit pc) eqn:E1, (holds_permit pc') eqn:E2; lia.
    + lia.
    + rewrite Hrs, length_app.
      destruct (submitted_in evs) as [|r rest] eqn:E; simpl in *; [lia|].
      assert (List.length (results (shared y)) < results_capacity)%nat
        by (apply Hroom; discriminate).
      lia.
    + rewrite Hrs, Hsub, app_assoc. reflexivity.
    + intros Hr. destruct (Hoff Hr) as [Ha Ht]. split; [assumption | lia].
  - (* the ticker fires *)
    destruct (ticker_alive y) eqn:Ha; [|discriminate]. injection Hstep as <-.
    unfold Inv. simpl.
    assert (Hon : 0 < rate cfg).
    { destruct (Z_lt_le_dec 0 (rate cfg)) as [|Hr]; [assumption|].
      destruct (Hoff Hr). congruence. }
    destruct (Nat.ltb_spec (tokens (shared y)) (token_capacity cfg)); simpl;
      repeat split; try assumption; try lia.
  - (* the ticker goroutine returns *)
    destruct (ticker_alive y && ctx_done (shared y)); [|discriminate].
    injection Hstep as <-. unfold Inv. simpl. repeat split; try assumption.
    apply Hoff; assumption.
  - (* the collector receives *)
    destruct (results (shared y)) as [|r q] eqn:E; [discriminate|].
    injection Hstep as <-. unfold Inv. simpl. simpl in Hres.
    repeat split; try assumption; try lia; try (apply Hoff; assumption).
    rewrite Hsub, <- app_assoc. reflexivity.
  - (* cancel *)
    injection Hstep as <-. unfold Inv. simpl. repeat split; try assumption;
      apply Hoff; assumption.
Qed.

Lemma Inv_run cfg acts : forall y y',
  Inv cfg y -> sys_run cfg acts y = Some y' -> Inv cfg y'.
Proof.
  induction acts as [|a rest IH]; intros y y' HI H; simpl in H.
  - injection H as <-. assumption.
  - destruct (sys_step cfg a y) as [y1|] eqn:Hs; [|discriminate].
    eapply IH; [|exact H]. eapply Inv_step; eassumption.
Qed.

Lemma pinging_le_holders ws : (pinging ws <= holders ws)%nat.
Proof.
  unfold pinging, holders. induction ws as [|[u pc] ws IH]; simpl; [lia|].
  destruct pc; simpl; lia.
Qed.

Lemma sys_run_app cfg acts1 acts2 : forall y,
  sys_run cfg (acts1 ++ acts2) y
  = match sys_run cfg acts1 y with
    | Some y1 => sys_run cfg acts2 y1
    | None => None
    end.
Proof.
  induction acts1 as [|a rest IH]; intros y; simpl; [reflexivity|].
  destruct (sys_step cfg a y); [apply IH | reflexivity].
Qed.

(** X13.  In every state the program can reach, under any interleaving of
    its goroutines, the number of workers between their send on [sem] and
    their deferred receive equals the length of [sem] and never exceeds
    [concurrency]; so no more than [concurrency] workers are ever inside
    [pingWithRetries] at once (none at all when [concurrency <= 0]). *)
Theorem concurrency_is_bounded cfg acts y :
  sys_run cfg acts (sys0 cfg) = Some y ->
  Z.of_nat (holders (workers y)) <= Z.max 0 (concurrency cfg)
  /\ Z.of_nat (pinging (workers y)) <= Z.max 0 (concurrency cfg)
  /\ sem (shared y) = holders (workers y).
Proof.
  intros H. destruct (Inv_run _ _ _ _ (Inv_init cfg) H) as (Hsem & Hcap & _).
  pose proof (pinging_le_holders (workers y)). rewrite <- Hsem. repeat split; lia.
Qed.

Lemma concurrency_is_bounded_witness :
  exists y,
    sys_run cfg_rate_limited run_two_workers (sys0 cfg_rate_limited) = Some y
    /\ Z.of_nat (holders (workers y)) <= Z.max 0 (concurrency cfg_rate_limited)
    /\ Z.of_nat (pinging (workers y)) <= Z.max 0 (concurrency cfg_rate_limited)
    /\ sem (shared y) = holders (workers y).
Proof.
  assert (E : sys_run cfg_rate_limited run_two_workers (sys0 cfg_rate_limited)
              = Some state_two_workers) by (vm_compute; reflexivity).
  exists state_two_workers. split; [exact E|].
  exact (concurrency_is_bounded cfg_rate_limited run_two_workers state_two_workers E).
Defined.

(** X14.  In every reachable state the token bucket holds at most
    [2 * rate] tokens (the ticker's send never blocks and never
    overfills); without a rate limit there is no token at all. *)
Theorem token_bucket_is_bounded cfg acts y :
  sys_run cfg acts (sys0 cfg) = Some y ->
  (tokens (shared y) <= token_capacity cfg)%nat
  /\ (rate cfg <= 0 -> tokens (shared y) = 0%nat).
Proof.
  intros H. destruct (Inv_run _ _ _ _ (Inv_init cfg) H) as (_ & _ & Htok & _ & _ & Hoff).
  split; [assumption|]. intros Hr. apply Hoff. assumption.
Qed.

Lemma token_bucket_is_bounded_witness :
  exists y,
    sys_run cfg_rate_limited run_two_workers (sys0 cfg_rate_limited) = Some y
    /\ (tokens (shared y) <= token_capacity cfg_rate_limited)%nat
    /\ (rate cfg_rate_limited <= 0 -> tokens (shared y) = 0%nat).
Proof.
  assert (E : sys_run cfg_rate_limited run_two_workers (sys0 cfg_rate_limited)
              = Some state_two_workers) by (vm_compute; reflexivity).
  exists state_two_workers. split; [exact E|].
  exact (token_bucket_is_bounded cfg_rate_limited run_two_workers state_two_workers E).
Defined.



(** X16.  The deferred release never blocks: in every reachable state a
    worker that stands at its deferred [<-sem] can take that step at
    once, and the step takes exactly one permit out of [sem]. *)
Theorem release_never_blocks cfg acts y i url p :
  sys_run cfg acts (sys0 cfg) = Some y ->
  nth_error (workers y) i = Some (url, AtRelease) ->
  exists y', sys_step cfg (ActWorker i p) y = Some y'
             /\ workers y' = update_nth i (url, AtDone) (workers y)
             /\ S (sem (shared y')) = sem (shared y).
Proof.
  intros H Hnth. destruct (Inv_run _ _ _ _ (Inv_init cfg) H) as (Hsem & _).
  destruct (nth_error_update _ _ _ (url, AtDone) Hnth) as (l1 & l2 & Hl & Hu).
  assert (Hpos : (0 < sem (shared y))%nat).
  { rewrite Hsem, Hl, holders_app, holders_cons. simpl. lia. }
  simpl. rewrite Hnth. simpl. destruct (sem (shared y)) as [|n] eqn:E; [lia|].
  eexists. split; [reflexivity|]. simpl. split; reflexivity.
Qed.

Lemma release_never_blocks_witness :
  exists y y',
    sys_run cfg_rate_limited run_to_release (sys0 cfg_rate_limited) = Some y
    /\ sys_step cfg_rate_limited (ActWorker 0 pick_done) y = Some y'
    /\ workers y' = update_nth 0 ("A"%string, AtDone) (workers y)
    /\ S (sem (shared y')) = sem (shared y).
Proof.
  assert (E : sys_run cfg_rate_limited run_to_release (sys0 cfg_rate_limited)
              = Some state_at_release) by (vm_compute; reflexivity).
  assert (Hnth : nth_error (workers state_at_release) 0 = Some ("A"%string, AtRelease))
    by reflexivity.
  destruct (release_never_blocks cfg_rate_limited run_to_release state_at_release
              0 "A" pick_done E Hnth) as (y' & H).
  exists state_at_release, y'. split; [exact E | exact H].
Defined.

Lemma sys_step_keeps_cancelled cfg a y y' :
  sys_step cfg a y = Some y' ->
  ctx_done (shared y) = true -> ctx_done (shared y') = true.
Proof.
  intros Hstep Hc. destruct a; simpl in Hstep.
  - injection Hstep as <-. assumption.
  - destruct (nth_error (workers y) i) as [[url pc]|]; [|discriminate].
    destruct (worker_step cfg url p (shared y) pc) as [[[sh' pc'] evs]|] eqn:Hw;
      [|discriminate].
    injection Hstep as <-. simpl.
    destruct (worker_step_effect _ _ _ _ _ _ _ _ Hw) as (_ & _ & _ & _ & _ & Hk).
    apply Hk. assumption.
  - destruct (ticker_alive y); [|discriminate]. injection Hstep as <-. simpl.
    destruct (_ <? _)%nat; assumption.
  - destruct (ticker_alive y && ctx_done (shared y)); [|discriminate].
    injection Hstep as <-. assumption.
  - destruct (results (shared y)); [discriminate|]. injection Hstep as <-. assumption.
  - injection Hstep as <-. reflexivity.
Qed.

Lemma sys_run_keeps_cancelled cfg acts : forall y y',
  sys_run cfg acts y = Some y' ->
  ctx_done (shared y) = true -> ctx_done (shared y') = true.
Proof.
  induction acts as [|a rest IH]; intros y y' H Hc; simpl in H.
  - injection H as <-. assumption.
  - destruct (sys_step cfg a y) as [y1|] eqn:Hs; [|discriminate].
    apply (IH y1 y' H). exact (sys_step_keeps_cancelled _ _ _ _ Hs Hc).
Qed.

(** X17.  Cancellation is permanent: once [cancel()] has run, the context
    is cancelled in every later state, whatever the goroutines do
    afterwards; and from then on the ticker goroutine is free to
    return. *)
Theorem cancellation_is_permanent cfg before after y :
  sys_run cfg (before ++ ActCancel :: after) (sys0 cfg) = Some y ->
  ctx_done (shared y) = true
  /\ (ticker_alive y = true -> sys_step cfg ActTickerExit y <> None).
Proof.
  intros H. rewrite sys_run_app in H.
  destruct (sys_run cfg before (sys0 cfg)) as [y1|]; [|discriminate].
  assert (Hc : ctx_done (shared y) = true).
  { simpl in H. apply (sys_run_keeps_cancelled cfg after _ _ H). reflexivity. }
  split; [assumption|].
  intros Ha. simpl. rewrite Ha, Hc. discriminate.
Qed.

Lemma cancellation_is_permanent_witness :
  exists y,
    sys_run cfg_rate_limited
      (run_to_release ++ ActCancel :: [ActCollect; ActWorker 0 pick_send; ActTick])
      (sys0 cfg_rate_limited) = Some y
    /\ ctx_done (shared y) = true
    /\ (ticker_alive y = true -> sys_step cfg_rate_limited ActTickerExit y <> None).
Proof.
  destruct (sys_run cfg_rate_limited
              (run_to_release ++ ActCancel :: [ActCollect; ActWorker 0 pick_send; ActTick])
              (sys0 cfg_rate_limited)) as [y|] eqn:E.
  - exists y. split; [reflexivity|].
    exact (cancellation_is_permanent cfg_rate_limited run_to_release
             [ActCollect; ActWorker 0 pick_send; ActTick] y E).
  - vm_compute in E. discriminate E.
Defined.

(* ================================================================= *)
(** ** The rate limiter *)

(** The division of the model is the division of the hardware floats, on
    a sample of numerators and rates. *)
Lemma float64_div_matches_hardware :
  forallb (fun a => forallb (div_agrees_with_hardware a) sample_rates)
    [Second; 1; 3; 2 ^ 53 - 1; 2 ^ 62 + 12345] = true.
Proof. vm_compute. reflexivity. Qed.

(** The set-up at a few rates: none, 1, 3 and 20 per second, the largest
    rate the program accepts, and three it does not survive. *)
Example rate_limiter_setup_samples :
  map (rate_limiter_setup 0) [0; -1; 1; 3; 20; 1000000000; 1000000001; 2 ^ 62]
  = [NoLimiter; NoLimiter; Limiter 2 1000000000; Limiter 6 333333333;
     Limiter 40 50000000; Limiter 2000000000 1; LimiterPanics; LimiterPanics].
Proof. vm_compute. reflexivity. Qed.

Lemma normalize_shift m e j :
  Float64.mant (Float64.normalize m (e + j)) = Float64.mant (Float64.normalize m e)
  /\ Float64.expo (Float64.normalize m (e + j)) = Float64.expo (Float64.normalize m e) + j.
Proof.
  unfold Float64.normalize. destruct (_ <=? _); simpl; split; lia.
Qed.

(** Rounding keeps the integer part of a value that lies between [n] and
    the last multiple of [2 ^ (- j)] below [n + 1]. *)
Lemma normalize_floor m e j n :
  0 <= j -> e + j <= 0 -> 0 <= n -> (n + 1) * 2 ^ j <= 2 ^ 53 ->
  n * 2 ^ (- e) <= m <= ((n + 1) * 2 ^ j - 1) * 2 ^ (- e - j) ->
  Float64.trunc (Float64.normalize m e) = n.
Proof.
  intros Hj He Hn Hhi Hm.
  assert (P : 0 < 2 ^ j) by (apply Z.pow_pos_nonneg; lia).
  destruct (normalize_shift m e j) as [Hmant Hexpo].
  assert (Hb : let x := Float64.normalize m (e + j) in
               Float64.expo x <= 0
               /\ (n * 2 ^ j) * 2 ^ (- Float64.expo x) <= Float64.mant x
                  <= ((n + 1) * 2 ^ j - 1) * 2 ^ (- Float64.expo x)).
  { apply normalize_between; try lia.
    replace (- (e + j)) with (- e - j) by lia. split; [|lia].
    replace (2 ^ (- e)) with (2 ^ j * 2 ^ (- e - j)) in Hm
      by (rewrite <- Z.pow_add_r by lia; f_equal; lia).
    lia. }
  cbv zeta in Hb. rewrite Hmant, Hexpo in Hb. destruct Hb as (Hx & Hlo & Hup).
  set (x := Float64.normalize m e) in *.
  unfold Float64.trunc. destruct (Z.leb_spec 0 (Float64.expo x)).
  - assert (j = 0) by lia. subst j.
    replace (Float64.expo x) with 0 in * by lia. simpl in *. lia.
  - set (t := - (Float64.expo x + j)) in *.
    assert (Ht : 0 <= t) by (unfold t; lia).
    assert (Q : 0 < 2 ^ t) by (apply Z.pow_pos_nonneg; lia).
    assert (E : 2 ^ (- Float64.expo x) = 2 ^ j * 2 ^ t).
    { rewrite <- Z.pow_add_r by lia. f_equal. unfold t. lia. }
    rewrite E. rewrite Z.quot_div_nonneg by nia.
    apply Z.le_antisymm.
    + apply Z.lt_succ_r. apply Z.div_lt_upper_bound; [nia|]. nia.
    + apply Z.div_le_lower_bound; [nia|]. nia.
Qed.

Lemma of_int_small n :
  0 < n < 2 ^ 53 -> Float64.of_int n = Float64.mk n 0.
Proof.
  intros H. unfold Float64.of_int, Float64.normalize, Float64.precision.
  rewrite Z.abs_eq by lia.
  destruct (Z.leb_spec (Float64.bits n) 53) as [|Hb]; [reflexivity|].
  exfalso. destruct (bits_spec n) as [Hlow _]; [lia|].
  assert (2 ^ 53 <= 2 ^ (Float64.bits n - 1)) by (apply Z.pow_le_mono_r; lia). lia.
Qed.

Lemma of_int_large n :
  1000000000 < n ->
  0 < Float64.mant (Float64.of_int n)
  /\ 0 <= Float64.expo (Float64.of_int n)
  /\ 1000000001
     <= Float64.mant (Float64.of_int n) * 2 ^ Float64.expo (Float64.of_int n).
Proof.
  intros H. unfold Float64.of_int, Float64.normalize, Float64.precision.
  rewrite Z.abs_eq by lia.
  destruct (Z.leb_spec (Float64.bits n) 53) as [|Hb]; simpl.
  - repeat split; lia.
  - destruct (bits_spec n) as [Hlow _]; [lia|].
    set (k := Float64.bits n - 53) in *.
    assert (Hk : 0 < k) by lia.
    assert (P : 0 < 2 ^ k) by (apply Z.pow_pos_nonneg; lia).
    assert (Hr : 2 ^ 52 <= Float64.round_nearest_even n k).
    { apply round_nearest_even_lower; [assumption|].
      rewrite <- Z.pow_add_r by lia. replace (52 + k) with (Float64.bits n - 1) by lia.
      assumption. }
    rewrite Z.sgn_pos by lia. rewrite Z.mul_1_l.
    change (2 ^ 52) with 4503599627370496 in Hr.
    repeat split; first [lia | nia].
Qed.

Lemma quotient_bracket (S0 rate B W N q s : Z) :
  0 < B -> B <= rate < 2 * B -> 0 < W ->
  N * rate <= S0 < (N + 1) * rate ->
  q * rate <= S0 * (W * (2 * B)) ->
  0 <= s <= 1 ->
  0 <= N ->
  N * (W * (2 * B)) <= q ->
  N * (2 * (W * (2 * B))) <= 2 * q + s <= ((N + 1) * (2 * B * 2) - 1) * W.
Proof.
  intros HB Hr HW HN Hq Hs HN0 Hlow.
  set (K := W * (2 * B)) in *.
  assert (HK : W * rate < K) by (unfold K; nia).
  assert (H1 : S0 * K <= ((N + 1) * rate - 1) * K)
    by (apply Z.mul_le_mono_nonneg_r; [unfold K; nia | lia]).
  assert (H2 : q * rate < ((N + 1) * K - W) * rate).
  { replace (((N + 1) * K - W) * rate) with ((N + 1) * rate * K - W * rate) by ring.
    replace (((N + 1) * rate - 1) * K) with ((N + 1) * rate * K - K) in H1 by ring.
    lia. }
  assert (H3 : q < (N + 1) * K - W)
    by (apply (Z.mul_lt_mono_pos_r rate); lia).
  split; [lia|].
  replace (((N + 1) * (2 * B * 2) - 1) * W) with (2 * ((N + 1) * K) - W)
    by (unfold K; ring).
  lia.
Qed.

(** X18.  For every rate from 1 to 10^9 requests per second the limiter
    is set up without a panic: the token channel has room for [2 * rate]
    tokens and the ticker's period is [time.Second / rate] nanoseconds
    rounded down; the float64 division and its conversion introduce no
    error. *)
Theorem rate_limiter_interval indefinite rate :
  0 < rate <= 1000000000 ->
  rate_limiter_setup indefinite rate = Limiter (2 * rate) (Second / rate).
Proof.
  intros Hr. unfold rate_limiter_setup.
  destruct (Z.ltb_spec 0 rate); [|lia].
  assert (Hcap : Int64.mul rate 2 = 2 * rate).
  { unfold Int64.mul. rewrite wrap_in_range; [lia|].
    unfold Int64.in_range, Int64.MinInt64, Int64.MaxInt64. lia. }
  rewrite Hcap. destruct (Z.ltb_spec (2 * rate) 0); [lia|].
  change (Float64.of_int Second) with (Float64.mk 1000000000 0).
  rewrite (of_int_small rate) by (change (2 ^ 53) with 9007199254740992; lia).
  unfold float64_div. cbn [Float64.mant Float64.expo].
  destruct (Z.eqb_spec rate 0) as [|_]; [lia|].
  rewrite (Z.abs_eq rate), (Z.sgn_pos rate) by lia.
  change (Z.sgn 1000000000) with 1. change (Z.abs 1000000000) with 1000000000.
  rewrite !Z.mul_1_l.
  set (b := Float64.bits rate).
  destruct (bits_spec rate) as [Hb1 Hb2]; [lia|]. fold b in Hb1, Hb2.
  assert (Hb : 1 <= b).
  { unfold b, Float64.bits. destruct (Z.eqb_spec rate 0); [lia|].
    pose proof (Z.log2_nonneg rate). lia. }
  assert (E2 : 2 ^ b = 2 * 2 ^ (b - 1)).
  { rewrite <- (Z.pow_succ_r 2 (b - 1)) by lia. f_equal. lia. }
  set (B := 2 ^ (b - 1)) in *.
  assert (HB : 0 < B) by (apply Z.pow_pos_nonneg; lia).
  assert (EK : 2 ^ (64 + b) = 2 ^ 64 * (2 * B)).
  { rewrite Z.pow_add_r by lia. rewrite E2. reflexivity. }
  set (W := 2 ^ 64) in *.
  assert (HW : 0 < W) by (subst W; apply Z.pow_pos_nonneg; lia).
  set (N := Second / rate).
  assert (HN : N * rate <= Second < (N + 1) * rate).
  { unfold N. pose proof (Z.div_mod Second rate).
    pose proof (Z.mod_pos_bound Second rate). lia. }
  assert (HN1 : 1 <= N <= 1000000000).
  { unfold N. split.
    - apply Z.div_le_lower_bound; unfold Second; lia.
    - apply Z.div_le_upper_bound; unfold Second in *; lia. }
  rewrite EK.
  set (num := 1000000000 * (W * (2 * B))).
  set (q := num / rate).
  assert (Hq : q * rate <= num).
  { unfold q. pose proof (Z.div_mod num rate). pose proof (Z.mod_pos_bound num rate). lia. }
  set (s := if num mod rate =? 0 then 0 else 1).
  assert (Hs : 0 <= s <= 1) by (unfold s; destruct (num mod rate =? 0); lia).
  assert (Hlow : N * (W * (2 * B)) <= q).
  { unfold q. apply Z.div_le_lower_bound; [lia|]. unfold num.
    replace (rate * (N * (W * (2 * B)))) with (N * rate * (W * (2 * B))) by ring.
    apply Z.mul_le_mono_nonneg_r; [|unfold Second in HN; lia].
    apply Z.mul_nonneg_nonneg; lia. }
  assert (HrB : B <= rate < 2 * B) by lia.
  assert (HN0 : 0 <= N) by lia.
  pose proof (quotient_bracket 1000000000 rate B W N q s HB HrB HW HN Hq Hs HN0 Hlow)
    as Hbr.
  assert (Htr : Float64.trunc (Float64.normalize (2 * q + s) (0 - 0 - (64 + b) - 1)) = N).
  { apply (normalize_floor _ _ (b + 1)).
    - lia.
    - lia.
    - lia.
    - rewrite Z.pow_add_r, E2 by lia. change (2 ^ 1) with 2.
      change (2 ^ 53) with 9007199254740992.
      assert (N * B <= N * rate) by (apply Z.mul_le_mono_nonneg_l; lia).
      unfold Second in HN. lia.
    - replace (- (0 - 0 - (64 + b) - 1)) with (1 + (64 + b)) by lia.
      replace (1 + (64 + b) - (b + 1)) with 64 by lia.
      rewrite (Z.pow_add_r 2 1 (64 + b)), (Z.pow_add_r 2 b 1) by lia.
      rewrite EK, E2. change (2 ^ 1) with 2. fold W. exact Hbr. }
  unfold Float64.to_int64. rewrite Htr.
  destruct (Z.leb_spec Int64.MinInt64 N), (Z.leb_spec N Int64.MaxInt64);
    unfold Int64.MinInt64, Int64.MaxInt64 in *; try lia.
  simpl. destruct (Z.leb_spec N 0); [lia | reflexivity].
Qed.

Lemma rate_limiter_interval_witness :
  rate_limiter_setup 0 3 = Limiter (2 * 3) (Second / 3).
Proof.
  apply rate_limiter_interval. lia.
Defined.

Lemma quotient_below_one (my ey k q : Z) :
  0 < my -> 0 <= ey -> 30 <= k ->
  1000000001 <= my * 2 ^ ey ->
  q * my <= 1000000000 * 2 ^ k ->
  0 <= q ->
  2 * q + 1 <= (2 ^ 30 - 1) * 2 ^ (ey + k - 29).
Proof.
  intros Hmy Hey Hk HV Hq Hq0.
  set (P := 2 ^ (ey + k - 30)).
  assert (HP : 0 < P) by (apply Z.pow_pos_nonneg; lia).
  assert (E1 : 2 ^ (ey + k - 29) = 2 * P).
  { unfold P. rewrite <- (Z.pow_succ_r 2 (ey + k - 30)) by lia. f_equal. lia. }
  assert (E2 : 2 ^ k * 2 ^ ey = 1073741824 * P).
  { unfold P. change 1073741824 with (2 ^ 30).
    rewrite <- !Z.pow_add_r by lia. f_equal. lia. }
  rewrite E1. change (2 ^ 30) with 1073741824.
  assert (Hpe : 0 < 2 ^ ey) by (apply Z.pow_pos_nonneg; lia).
  assert (H1 : q * my * 2 ^ ey <= 1000000000 * 2 ^ k * 2 ^ ey)
    by (apply Z.mul_le_mono_nonneg_r; lia).
  replace (1000000000 * 2 ^ k * 2 ^ ey) with (1000000000 * (2 ^ k * 2 ^ ey)) in H1 by ring.
  rewrite E2 in H1.
  replace (q * my * 2 ^ ey) with (q * (my * 2 ^ ey)) in H1 by ring.
  set (X := my * 2 ^ ey) in *.
  assert (H2 : q * 1000000001 <= q * X) by (apply Z.mul_le_mono_nonneg_l; lia).
  assert (H3 : q < 1073741823 * P).
  { destruct (Z_lt_le_dec q (1073741823 * P)) as [|Hge]; [assumption|exfalso].
    assert (1073741823 * P * 1000000001 <= q * 1000000001)
      by (apply Z.mul_le_mono_nonneg_r; lia).
    lia. }
  lia.
Qed.

(** X19.  For every rate above 10^9 the program panics while it sets the
    limiter up: either [rate * 2] has wrapped to a negative channel size,
    or the period [float64(time.Second) / float64(rate)] is below one
    nanosecond, is converted to the duration 0, and [time.NewTicker]
    refuses it. *)
Theorem rate_limiter_panics_above_1e9 indefinite rate :
  1000000000 < rate <= Int64.MaxInt64 ->
  rate_limiter_setup indefinite rate = LimiterPanics.
Proof.
  intros Hr. unfold rate_limiter_setup.
  destruct (Z.ltb_spec 0 rate); [|lia].
  destruct (Z.ltb_spec (Int64.mul rate 2) 0) as [|Hcap]; [reflexivity|].
  change (Float64.of_int Second) with (Float64.mk 1000000000 0).
  destruct (of_int_large rate (proj1 Hr)) as (Hmy & Hey & HV).
  set (y := Float64.of_int rate) in *.
  unfold float64_div. cbn [Float64.mant Float64.expo].
  destruct (Z.eqb_spec (Float64.mant y) 0) as [|_]; [lia|].
  rewrite (Z.abs_eq (Float64.mant y)), (Z.sgn_pos (Float64.mant y)) by lia.
  change (Z.sgn 1000000000) with 1. change (Z.abs 1000000000) with 1000000000.
  rewrite !Z.mul_1_l.
  set (my := Float64.mant y) in *. set (ey := Float64.expo y) in *.
  set (b := Float64.bits my).
  assert (Hb : 0 <= b).
  { unfold b, Float64.bits. destruct (Z.eqb_spec my 0); [lia|].
    pose proof (Z.log2_nonneg my). lia. }
  set (k := 64 + b).
  set (num := 1000000000 * 2 ^ k).
  assert (Hk : 0 < 2 ^ k) by (apply Z.pow_pos_nonneg; lia).
  set (q := num / my).
  assert (Hq : q * my <= num).
  { unfold q. pose proof (Z.div_mod num my). pose proof (Z.mod_pos_bound num my). lia. }
  assert (Hq0 : 0 <= q) by (unfold q; apply Z.div_pos; unfold num; lia).
  set (s := if num mod my =? 0 then 0 else 1).
  assert (Hs : 0 <= s <= 1) by (unfold s; destruct (num mod my =? 0); lia).
  assert (Hk30 : 30 <= k) by (unfold k; lia).
  pose proof (quotient_below_one my ey k q Hmy Hey Hk30 HV Hq Hq0) as Hbr.
  assert (Htr : Float64.trunc (Float64.normalize (2 * q + s) (0 - ey - k - 1)) = 0).
  { apply (normalize_floor _ _ 30).
    - lia.
    - lia.
    - lia.
    - change (2 ^ 30) with 1073741824. change (2 ^ 53) with 9007199254740992. lia.
    - replace (- (0 - ey - k - 1) - 30) with (ey + k - 29) by lia.
      rewrite Z.mul_0_l. lia. }
  unfold Float64.to_int64. rewrite Htr. reflexivity.
Qed.

Lemma rate_limiter_panics_above_1e9_witness :
  rate_limiter_setup 0 1000000001 = LimiterPanics.
Proof.
  apply rate_limiter_panics_above_1e9. unfold Int64.MaxInt64. lia.
Defined.
